(** * p2p-share: the encrypted chunked transfer of [src/lib/transfer.js]

    A shallow embedding of the sender pipeline [sendFileInChunks], of the
    receiver's message handler returned by [useReceiver], and of the helpers of
    [src/lib/crypto.js], followed by the properties of the transfer protocol.

    Conventions of the embedding.
    - A byte buffer ([ArrayBuffer], [Uint8Array], [Blob]) is a [list byte].
    - A JavaScript value that went through JSON is a [json]; [undefined] is
      the [None] of [option json].
    - A text frame is kept as the value [JSON.parse] gives for it ([None] when
      parsing throws); [JSON.stringify] followed by [JSON.parse] is the
      identity on the messages this program sends.
    - Web Crypto ([crypto.subtle], [crypto.getRandomValues]), the clock and
      the stream reader belong to the platform: they are operations of the
      class [WebCrypto] and inputs of the sender, and what the protocol needs
      from them is stated as hypotheses.
    - The receiver's handler is an [async] function, and it is given twice.
      [Receiver.onmessage] and [Receiver.deliver] run every call to its end
      before the next frame is handled. [Async] cuts every call at the
      operations of the platform it awaits: the part up to the first [await]
      runs when the frame arrives, the parts that follow run when the awaited
      operation settles, and the operations in flight settle in any order and
      at any moment between two arrivals. The two agree on the run in which
      everything a call awaits has settled before the next frame arrives.
    - Numbers computed with [/] are exact rationals, where the program has
      IEEE doubles: statements about them keep to what correctly rounded
      arithmetic preserves (order, sign, bounds that are themselves doubles). *)

From Stdlib Require Import String Ascii Strings.Byte ZArith QArith Qminmax Bool Lia
  List.
Import ListNotations.

Set Implicit Arguments.
Set Warnings "-register-all".

Local Open Scope string_scope.
Local Open Scope nat_scope.
Local Open Scope list_scope.

(** ** Values *)

Definition bytes := list byte.

Inductive json : Type :=
| JNull
| JBool (b : bool)
| JNum (n : Z)
| JStr (s : string)
| JArr (items : list json)
| JObj (fields : list (string * json)).

(** Own properties of an object, in insertion order; the first binding of a
    name is the one a property read sees. *)
Fixpoint assoc (k : string) (fs : list (string * json)) : option json :=
  match fs with
  | [] => None
  | (k', v) :: fs' => if String.eqb k k' then Some v else assoc k fs'
  end.

(** [v.k] for a value [v] that is not nullish: only objects carry the
    properties this program reads. *)
Definition prop (v : json) (k : string) : option json :=
  match v with
  | JObj fs => assoc k fs
  | _ => None
  end.

(** [v?.k]. *)
Definition opt_prop (v : option json) (k : string) : option json :=
  match v with
  | Some j => prop j k
  | None => None
  end.

Definition keys (v : json) : list string :=
  match v with
  | JObj fs => map fst fs
  | _ => []
  end.

(** ToBoolean. *)
Definition truthy (v : option json) : bool :=
  match v with
  | None => false
  | Some JNull => false
  | Some (JBool b) => b
  | Some (JNum n) => negb (Z.eqb n 0)
  | Some (JStr s) => negb (String.eqb s "")
  | Some (JArr _) => true
  | Some (JObj _) => true
  end.

(** [v === s] for a string [s]. *)
Definition strict_eq_string (v : option json) (s : string) : bool :=
  match v with
  | Some (JStr s') => String.eqb s' s
  | _ => false
  end.

(** [msg.type === t]. *)
Definition has_type (msg : json) (t : string) : bool :=
  strict_eq_string (prop msg "type") t.

(** ToNumber, for the values whose conversion the embedding computes: [None]
    stands for a string, an array or an object, whose numeric value is not
    modelled. *)
Definition ToNumber (v : json) : option Q :=
  match v with
  | JNull => Some (inject_Z 0)
  | JBool b => Some (inject_Z (if b then 1 else 0))
  | JNum n => Some (inject_Z n)
  | _ => None
  end.

(** [Array.from(u8)]: the bytes as an array of numbers. *)
Definition byte_to_Z (b : byte) : Z := Z.of_N (Byte.to_N b).

Definition Array_from (u8 : bytes) : json :=
  JArr (map (fun b => JNum (byte_to_Z b)) u8).

(** ToUint8 of a whole number. *)
Definition Z_to_byte (z : Z) : byte :=
  match Byte.of_N (Z.to_N (z mod 256)) with
  | Some b => b
  | None => x00
  end.

(** ToUint8 of an array element, computed for the elements [ToNumber] above
    converts: numbers, booleans and [null]. The numeric value of a string, an
    array or an object is not modelled and stands as 0 here, which is not
    what the platform gives for all of them (["5"] and [[7]] convert to 5 and
    7): statements about decryption are made for arrays of numbers. *)
Definition ToUint8 (v : json) : byte :=
  match v with
  | JNum n => Z_to_byte n
  | JBool true => x01
  | _ => x00
  end.

(** [new Uint8Array(v)]: an array is converted element by element, a number
    is a length; [None] is the RangeError of a negative length. The
    conversion is the platform's on arrays of numbers, booleans and [null],
    such as [Array.from] of a byte array, and on [undefined], [null] and
    booleans. It is not modelled for a string (a length after ToNumber), for
    an object with a [length], nor for a length beyond what the platform
    allocates: the value given for these is a stand-in, and the statements
    about decryption take the initialisation vector as [Array_from] of its
    bytes. *)
Definition new_Uint8Array (v : option json) : option bytes :=
  match v with
  | Some (JArr l) => Some (map ToUint8 l)
  | Some (JNum n) => if (n <? 0)%Z then None else Some (repeat x00 (Z.to_nat n))
  | Some (JBool true) => Some [x00]
  | _ => Some []
  end.

(** ** Frames of the data channel *)

Inductive frame : Type :=
| FText (parsed : option json)   (* [typeof ev.data === "string"] *)
| FBinary (data : bytes).        (* [ev.data instanceof ArrayBuffer] *)

(** [dc.send(JSON.stringify(v))]. *)
Definition text (v : json) : frame := FText (Some v).

(** ** The platform *)

Inductive error : Type :=
| DataError        (* [importKey] rejects the key data *)
| OperationError   (* [decrypt] fails to authenticate *)
| TypeError        (* an argument of the wrong type, such as a null key *)
| RangeError.      (* an invalid typed-array length *)

Class WebCrypto : Type := {
  privateKey : Type;
  publicKey : Type;
  secretKey : Type;
  (** the public half of the pair [generateKey] makes around a private key *)
  public_of : privateKey -> publicKey;
  (** [exportKey("jwk", k)] *)
  exportKey_jwk : publicKey -> json;
  (** [importKey("jwk", v, ECDH P-256)], which may reject *)
  importKey_jwk : json -> error + publicKey;
  (** [deriveBits({ECDH, public}, private, 256)] *)
  deriveBits : privateKey -> publicKey -> bytes;
  (** [digest("SHA-256", b)] *)
  digest : bytes -> bytes;
  (** [importKey("raw", b, AES-GCM)] *)
  importKey_raw : bytes -> secretKey;
  (** [encrypt({AES-GCM, iv}, k, data)] *)
  encrypt : secretKey -> bytes -> bytes -> bytes;
  (** [decrypt({AES-GCM, iv}, k, data)]; [None] when the tag does not verify *)
  decrypt : secretKey -> bytes -> bytes -> option bytes
}.

(** ** src/lib/crypto.js *)

Module Crypto.
Section Crypto.
Context {W : WebCrypto}.

Record CryptoKeyPair : Type := {
  kp_privateKey : privateKey;
  kp_publicKey : publicKey
}.

(** [generateECDH]: the pair around the private key the platform draws. *)
Definition generateECDH (drawn : privateKey) : CryptoKeyPair :=
  {| kp_privateKey := drawn; kp_publicKey := public_of drawn |}.

Definition exportPubKeyJwk (pk : publicKey) : json := exportKey_jwk pk.

(** An [undefined] key is converted to the dictionary without members
    before the platform looks at it. *)
Definition importPubKeyJwk (jwk : option json) : error + publicKey :=
  match jwk with
  | None => importKey_jwk (JObj [])
  | Some j => importKey_jwk j
  end.

Definition deriveAesKey (myPrivateKey : privateKey) (theirPublicKey : publicKey)
  : secretKey :=
  let bits := deriveBits myPrivateKey theirPublicKey in
  let hash := digest bits in
  importKey_raw hash.

(** [aesGcmEncrypt], given the 12 bytes [getRandomValues] returned. *)
Definition aesGcmEncrypt (aesKey : secretKey) (iv : bytes) (data : bytes)
  : json * bytes :=
  let ct := encrypt aesKey iv data in
  (Array_from iv, ct).

Definition aesGcmDecrypt (aesKey : option secretKey) (ivArray : option json)
           (ctU8 : bytes) : error + bytes :=
  match new_Uint8Array ivArray with
  | None => inl RangeError
  | Some iv =>
      match aesKey with
      | None => inl TypeError
      | Some k =>
          match decrypt k iv ctU8 with
          | Some pt => inr pt
          | None => inl OperationError
          end
      end
  end.

(** [b.toString(16).padStart(2, "0")] *)
Definition hex_digit (n : N) : ascii :=
  match n with
  | 0%N => "0" | 1%N => "1" | 2%N => "2" | 3%N => "3" | 4%N => "4"
  | 5%N => "5" | 6%N => "6" | 7%N => "7" | 8%N => "8" | 9%N => "9"
  | 10%N => "a" | 11%N => "b" | 12%N => "c" | 13%N => "d" | 14%N => "e"
  | _ => "f"
  end%char.

Definition hex2 (b : byte) : string :=
  let n := Byte.to_N b in
  String (hex_digit (n / 16)) (String (hex_digit (n mod 16)) EmptyString).

Definition sha256 (buffer : bytes) : string :=
  let hashArray := digest buffer in
  String.concat "" (map hex2 hashArray).

End Crypto.
End Crypto.

(** ** Effects

    A computation acts on a world [S] (the frames sent so far, the calls made
    to the caller's callbacks, the mutable variables) and either returns,
    throws, or waits for a promise that is never settled. *)

Inductive outcome (A : Type) : Type :=
| Returned (a : A)
| Threw (e : error)
| Stalled
| OutOfFuel.   (* a loop cut short by the bound of the embedding *)

Arguments Returned {A} a.
Arguments Threw {A} e.
Arguments Stalled {A}.
Arguments OutOfFuel {A}.

Definition M (S A : Type) : Type := S -> outcome A * S.

Definition ret {S A : Type} (a : A) : M S A := fun w => (Returned a, w).

Definition bind {S A B : Type} (c : M S A) (k : A -> M S B) : M S B :=
  fun w =>
    match c w with
    | (Returned a, w') => k a w'
    | (Threw e, w') => (Threw e, w')
    | (Stalled, w') => (Stalled, w')
    | (OutOfFuel, w') => (OutOfFuel, w')
    end.

(** [await p] for a promise that is already settled. *)
Definition await {S A : Type} (p : error + A) : M S A :=
  fun w =>
    match p with
    | inr a => (Returned a, w)
    | inl e => (Threw e, w)
    end.

Declare Scope js_scope.
Delimit Scope js_scope with js.
Notation "x <- c ;; k" := (bind c (fun x => k))
  (at level 61, c at next level, right associativity) : js_scope.
Notation "c ;; k" := (bind c (fun _ => k))
  (at level 61, right associativity) : js_scope.

(** What the caller is told. *)
Inductive status : Type :=
| StHashing            (* Calculating file hash (SHA-256)... *)
| StWaitingKey         (* Waiting for receiver's E2E key... *)
| StSending            (* Sending (encrypted)... *)
| StSent               (* Completed (encrypted). *)
| StWaitingMeta        (* DataChannel open. Waiting for metadata... *)
| StReceiving (name size : option json)   (* Receiving: name (size MB) *)
| StIntegrityFailed    (* Integrity check failed *)
| StReceived.          (* Completed. Integrity OK (encrypted) *)

Record report : Type := {
  progress : Q;
  speed : Q;
  eta : option Q    (* [None] is [null] *)
}.

Record File : Type := {
  name : string;
  content : bytes
}.

Definition size (f : File) : nat := length (content f).

(** [u8.subarray(b, e)] for [b <= e <= u8.byteLength]. *)
Definition subarray (u8 : bytes) (b e : nat) : bytes := firstn (e - b) (skipn b u8).

Definition CHUNK : nat := 64 * 1024.

Definition nat_to_Q (n : nat) : Q := inject_Z (Z.of_nat n).

(** ** src/lib/transfer.js: the sender *)

Module Sender.
Import Crypto.
Section Sender.
Context {W : WebCrypto}.

(** The platform as the sender meets it: the bytes [getRandomValues]
    hands out, the readings of [performance.now], the private key
    [generateKey] draws, the messages the channel delivers while the sender
    waits, and the blocks [reader.read()] yields one after the other. *)
Variable random : nat -> byte.
Variable clock : nat -> Q.
Variable drawn : privateKey.
Variable inbox : list frame.
Variable reads : list bytes.

Record world : Type := {
  randomPos : nat;            (* random bytes handed out so far *)
  clockPos : nat;             (* readings of the clock so far *)
  sentFrames : list frame;    (* [dc.send], oldest first *)
  progressLog : list report;  (* [onProgress], oldest first *)
  statusLog : list status     (* [setStatus], oldest first *)
}.

Definition start : world :=
  {| randomPos := 0; clockPos := 0; sentFrames := []; progressLog := [];
     statusLog := [] |}.

Definition dc_send (f : frame) : M world unit := fun w =>
  (Returned tt,
   {| randomPos := randomPos w; clockPos := clockPos w;
      sentFrames := sentFrames w ++ [f]; progressLog := progressLog w;
      statusLog := statusLog w |}).

Definition onProgress (p : report) : M world unit := fun w =>
  (Returned tt,
   {| randomPos := randomPos w; clockPos := clockPos w;
      sentFrames := sentFrames w; progressLog := progressLog w ++ [p];
      statusLog := statusLog w |}).

Definition setStatus (s : status) : M world unit := fun w =>
  (Returned tt,
   {| randomPos := randomPos w; clockPos := clockPos w;
      sentFrames := sentFrames w; progressLog := progressLog w;
      statusLog := statusLog w ++ [s] |}).

Definition performance_now : M world Q := fun w =>
  (Returned (clock (clockPos w)),
   {| randomPos := randomPos w; clockPos := S (clockPos w);
      sentFrames := sentFrames w; progressLog := progressLog w;
      statusLog := statusLog w |}).

(** [crypto.getRandomValues(new Uint8Array(n))] *)
Definition getRandomValues (n : nat) : M world bytes := fun w =>
  (Returned (map random (seq (randomPos w) n)),
   {| randomPos := randomPos w + n; clockPos := clockPos w;
      sentFrames := sentFrames w; progressLog := progressLog w;
      statusLog := statusLog w |}).

Local Open Scope js_scope.

(** [await aesGcmEncrypt(aesKey, data)] *)
Definition aesGcmEncrypt_js (aesKey : secretKey) (data : bytes)
  : M world (json * bytes) :=
  iv <- getRandomValues 12 ;;
  ret (aesGcmEncrypt aesKey iv data).

(** [waitForPeerPubKey]: the first delivered message that is text, parses,
    has type "ekey" and a truthy [pub] resolves the promise; when there is
    none the promise stays pending. *)
Fixpoint waitForPeerPubKey (delivered : list frame) : M world json :=
  match delivered with
  | [] => fun w => (Stalled, w)
  | FText (Some msg) :: later =>
      if has_type msg "ekey" && truthy (prop msg "pub") then
        match prop msg "pub" with
        | Some pub => ret pub
        | None => waitForPeerPubKey later
        end
      else waitForPeerPubKey later
  | _ :: later => waitForPeerPubKey later
  end.

(** The variables of the streaming phase. *)
Record counters : Type := {
  sent : nat;
  lastTime : Q;
  lastSent : nat
}.

Definition chunk_header (iv : json) (ct : bytes) : json :=
  JObj [("type", JStr "chunk"); ("iv", iv); ("len", JNum (Z.of_nat (length ct)))].

(** The throughput report after a chunk, [now] being the clock's reading.
    The difference, the quotients and the product are exact here and rounded
    to doubles in the program. *)
Definition throughput (total : nat) (now : Q) (c : counters) : M world counters :=
  if Qle_bool 500 (now - lastTime c) then
    let deltaBytes := (Z.of_nat (sent c) - Z.of_nat (lastSent c))%Z in
    let deltaSec := ((now - lastTime c) / 1000)%Q in
    let speed := (inject_Z deltaBytes / deltaSec)%Q in
    let remaining := (Z.of_nat total - Z.of_nat (sent c))%Z in
    let eta := if negb (Qle_bool speed 0) then Some (inject_Z remaining / speed)%Q
               else None in
    onProgress {| progress := (nat_to_Q (sent c) / nat_to_Q total * 100)%Q;
                  speed := speed; eta := eta |} ;;
    ret {| sent := sent c; lastTime := now; lastSent := sent c |}
  else ret c.

(** [while (offset < value.byteLength) { ... }]. Every turn moves [offset]
    forward by at least one byte, so [value.byteLength - offset] turns are
    enough: [fuel] bounds them. *)
Fixpoint slice_loop (fuel : nat) (aesKey : secretKey) (total : nat)
         (value : bytes) (offset : nat) (c : counters) : M world counters :=
  if offset <? length value then
    match fuel with
    | O => fun w => (OutOfFuel, w)
    | S fuel' =>
        let slice := subarray value offset (Nat.min (offset + CHUNK) (length value)) in
        r <- aesGcmEncrypt_js aesKey slice ;;
        let '(iv, ct) := r in
        dc_send (text (chunk_header iv ct)) ;;
        dc_send (FBinary ct) ;;
        let c1 := {| sent := sent c + length slice; lastTime := lastTime c;
                     lastSent := lastSent c |} in
        let offset1 := offset + length slice in
        now <- performance_now ;;
        c2 <- throughput total now c1 ;;
        slice_loop fuel' aesKey total value offset1 c2
    end
  else ret c.

(** [while (true) { const { value, done } = await reader.read(); ... }] *)
Fixpoint read_loop (aesKey : secretKey) (total : nat) (values : list bytes)
         (c : counters) : M world counters :=
  match values with
  | [] => ret c                     (* [done] *)
  | value :: later =>
      c1 <- slice_loop (length value) aesKey total value 0 c ;;
      read_loop aesKey total later c1
  end.

Definition meta_message (file : File) (myPubJwk : json) : json :=
  JObj [("type", JStr "meta"); ("name", JStr (name file));
        ("size", JNum (Z.of_nat (size file)));
        ("hash", JStr (sha256 (content file))); ("ecdhPub", myPubJwk)].

Definition end_message : json := JObj [("type", JStr "end")].

Definition sendFileInChunks (file : File) : M world unit :=
  (* Phase 0: prepare crypto *)
  let myKeys := generateECDH drawn in
  let myPubJwk := exportPubKeyJwk (kp_publicKey myKeys) in
  (* Phase 1: compute file hash *)
  setStatus StHashing ;;
  (* Phase 2: send metadata with the ECDH public key *)
  dc_send (text (meta_message file myPubJwk)) ;;
  (* Phase 3: wait for the receiver's public key *)
  setStatus StWaitingKey ;;
  peerPubJwk <- waitForPeerPubKey inbox ;;
  peerPubKey <- await (importPubKeyJwk (Some peerPubJwk)) ;;
  let aesKey := deriveAesKey (kp_privateKey myKeys) peerPubKey in
  (* Phase 4: stream encrypted chunks *)
  let total := size file in
  now0 <- performance_now ;;
  setStatus StSending ;;
  read_loop aesKey total reads {| sent := 0; lastTime := now0; lastSent := 0 |} ;;
  (* Phase 5: signal end *)
  dc_send (text end_message) ;;
  onProgress {| progress := 100%Q; speed := 0%Q; eta := Some 0%Q |} ;;
  setStatus StSent.

End Sender.
End Sender.

(** ** src/lib/transfer.js: the receiver *)

Module Receiver.
Import Crypto.
Section Receiver.
Context {W : WebCrypto}.

(** The variables [useReceiver] closes over, and what its three callbacks
    and the channel were handed. *)
Record state : Type := {
  meta : option json;               (* [null] until a meta message *)
  receivedBytes : nat;
  chunks : list bytes;
  expectingBinary : option json;
  pendingChunkInfo : option json;   (* [null] or the last chunk header *)
  myKeys : option CryptoKeyPair;
  aesKey : option secretKey;
  progressLog : list (option Q);    (* [setProgress], oldest first *)
  statusLog : list status;          (* [setStatus], oldest first *)
  downloads : list bytes;           (* the blobs given to [setDownloadUrl] *)
  sentFrames : list frame           (* [dc.send], oldest first *)
}.

Definition useReceiver : state :=
  {| meta := None; receivedBytes := 0; chunks := []; expectingBinary := Some (JNum 0);
     pendingChunkInfo := None; myKeys := None; aesKey := None;
     progressLog := []; statusLog := []; downloads := []; sentFrames := [] |}.

Definition setStatus (s : status) (r : state) : state :=
  {| meta := meta r; receivedBytes := receivedBytes r; chunks := chunks r;
     expectingBinary := expectingBinary r; pendingChunkInfo := pendingChunkInfo r;
     myKeys := myKeys r; aesKey := aesKey r; progressLog := progressLog r;
     statusLog := statusLog r ++ [s]; downloads := downloads r;
     sentFrames := sentFrames r |}.

Definition setProgress (p : option Q) (r : state) : state :=
  {| meta := meta r; receivedBytes := receivedBytes r; chunks := chunks r;
     expectingBinary := expectingBinary r; pendingChunkInfo := pendingChunkInfo r;
     myKeys := myKeys r; aesKey := aesKey r; progressLog := progressLog r ++ [p];
     statusLog := statusLog r; downloads := downloads r;
     sentFrames := sentFrames r |}.

Definition setDownloadUrl (blob : bytes) (r : state) : state :=
  {| meta := meta r; receivedBytes := receivedBytes r; chunks := chunks r;
     expectingBinary := expectingBinary r; pendingChunkInfo := pendingChunkInfo r;
     myKeys := myKeys r; aesKey := aesKey r; progressLog := progressLog r;
     statusLog := statusLog r; downloads := downloads r ++ [blob];
     sentFrames := sentFrames r |}.

Definition dc_send (f : frame) (r : state) : state :=
  {| meta := meta r; receivedBytes := receivedBytes r; chunks := chunks r;
     expectingBinary := expectingBinary r; pendingChunkInfo := pendingChunkInfo r;
     myKeys := myKeys r; aesKey := aesKey r; progressLog := progressLog r;
     statusLog := statusLog r; downloads := downloads r;
     sentFrames := sentFrames r ++ [f] |}.

Definition set_meta (m : option json) (r : state) : state :=
  {| meta := m; receivedBytes := receivedBytes r; chunks := chunks r;
     expectingBinary := expectingBinary r; pendingChunkInfo := pendingChunkInfo r;
     myKeys := myKeys r; aesKey := aesKey r; progressLog := progressLog r;
     statusLog := statusLog r; downloads := downloads r;
     sentFrames := sentFrames r |}.

Definition set_aesKey (k : option secretKey) (r : state) : state :=
  {| meta := meta r; receivedBytes := receivedBytes r; chunks := chunks r;
     expectingBinary := expectingBinary r; pendingChunkInfo := pendingChunkInfo r;
     myKeys := myKeys r; aesKey := k; progressLog := progressLog r;
     statusLog := statusLog r; downloads := downloads r;
     sentFrames := sentFrames r |}.

Definition set_myKeys (k : option CryptoKeyPair) (r : state) : state :=
  {| meta := meta r; receivedBytes := receivedBytes r; chunks := chunks r;
     expectingBinary := expectingBinary r; pendingChunkInfo := pendingChunkInfo r;
     myKeys := k; aesKey := aesKey r; progressLog := progressLog r;
     statusLog := statusLog r; downloads := downloads r;
     sentFrames := sentFrames r |}.

(** [pendingChunkInfo = info; expectingBinary = len;] *)
Definition set_pending (info len : option json) (r : state) : state :=
  {| meta := meta r; receivedBytes := receivedBytes r; chunks := chunks r;
     expectingBinary := len; pendingChunkInfo := info;
     myKeys := myKeys r; aesKey := aesKey r; progressLog := progressLog r;
     statusLog := statusLog r; downloads := downloads r;
     sentFrames := sentFrames r |}.

(** [chunks.push(pt); receivedBytes += pt.byteLength;] *)
Definition push_chunk (pt : bytes) (r : state) : state :=
  {| meta := meta r; receivedBytes := receivedBytes r + length pt;
     chunks := chunks r ++ [pt];
     expectingBinary := expectingBinary r; pendingChunkInfo := pendingChunkInfo r;
     myKeys := myKeys r; aesKey := aesKey r; progressLog := progressLog r;
     statusLog := statusLog r; downloads := downloads r;
     sentFrames := sentFrames r |}.

(** [bind(dc)], up to the installation of the message handler. *)
Definition bind_dc (drawn : privateKey) (r : state) : state :=
  set_myKeys (Some (generateECDH drawn)) (setStatus StWaitingMeta r).

Definition ekey_message (myPubJwk : json) : json :=
  JObj [("type", JStr "ekey"); ("pub", myPubJwk)].

(** [(receivedBytes / meta.size) * 100]; [None] when the size is not a
    number the embedding converts. *)
Definition percent (received : nat) (size : option json) : option Q :=
  match size with
  | Some v =>
      match ToNumber v with
      | Some q => Some (nat_to_Q received / q * 100)%Q
      | None => None
      end
  | None => None
  end.

Local Open Scope js_scope.

Definition on_meta (msg : json) : M state unit := fun r =>
  let r := set_meta (Some msg) r in
  let r := setStatus (StReceiving (prop msg "name") (prop msg "size")) r in
  match importPubKeyJwk (prop msg "ecdhPub") with
  | inl e => (Threw e, r)
  | inr senderPub =>
      match myKeys r with
      | None => (Threw TypeError, r)      (* [myKeys.privateKey] of [null] *)
      | Some keys =>
          let r := set_aesKey (Some (deriveAesKey (kp_privateKey keys) senderPub)) r in
          let myPubJwk := exportPubKeyJwk (kp_publicKey keys) in
          (Returned tt, dc_send (text (ekey_message myPubJwk)) r)
      end
  end.

Definition on_chunk (msg : json) : M state unit := fun r =>
  (Returned tt, set_pending (Some msg) (prop msg "len") r).

Definition on_end : M state unit := fun r =>
  let blob := concat (chunks r) in
  let hash := sha256 blob in
  if truthy (opt_prop (meta r) "hash")
     && negb (strict_eq_string (opt_prop (meta r) "hash") hash)
  then (Returned tt, setStatus StIntegrityFailed r)
  else (Returned tt, setStatus StReceived (setDownloadUrl blob r)).

Definition on_binary (data : bytes) : M state unit := fun r =>
  match pendingChunkInfo r with
  | None => (Returned tt, r)
  | Some info =>
      match aesGcmDecrypt (aesKey r) (prop info "iv") data with
      | inl e => (Threw e, r)
      | inr pt =>
          let r := push_chunk pt r in
          let r := set_pending None (Some (JNum 0)) r in
          if truthy (opt_prop (meta r) "size")
          then (Returned tt,
                setProgress (percent (receivedBytes r) (opt_prop (meta r) "size")) r)
          else (Returned tt, r)
      end
  end.

(** [dc.onmessage] *)
Definition onmessage (ev : frame) : M state unit :=
  match ev with
  | FText parsed =>
      match parsed with
      | None => ret tt                      (* [JSON.parse] threw *)
      | Some msg =>
          if negb (truthy (Some msg)) then ret tt
          else if has_type msg "meta" then on_meta msg
          else if has_type msg "chunk" then on_chunk msg
          else if has_type msg "end" then on_end
          else ret tt
      end
  | FBinary data => on_binary data
  end.

(** The handler run on the frames of the channel, in their order of arrival,
    every call run to its end before the next frame is handled; a handler
    that throws leaves the later frames to be handled all the same. This is
    the run [Async.serial] of the handler cut at its awaits. *)
Fixpoint deliver (frames : list frame) (r : state) : state :=
  match frames with
  | [] => r
  | ev :: later => deliver later (snd (onmessage ev r))
  end.

End Receiver.
End Receiver.

(** ** src/lib/transfer.js: the receiver's handler, await by await

    [dc.onmessage] is an [async] function. A call runs, when its frame
    arrives, up to the first operation of the platform it awaits; what comes
    after an [await] runs when the awaited operation settles. Frames keep
    arriving in the meantime, and nothing orders the operations in flight. *)

Module Async.
Import Crypto.
Section Async.
Context {W : WebCrypto}.

(** A call of the handler stopped at an [await], with what the awaited
    operation settles to. The arguments of the operation were evaluated when
    it was called, so that what it settles to is known from then on. *)
Inductive suspended : Type :=
| ImportingKey (settled : error + publicKey)
    (* meta: [await importPubKeyJwk(meta.ecdhPub)] *)
| DerivingKey (settled : secretKey)
    (* meta: [await deriveAesKey(myKeys.privateKey, senderPub)] *)
| ExportingKey (settled : json)
    (* meta: [await exportPubKeyJwk(myKeys.publicKey)] *)
| ReadingBlob (blob : bytes)
    (* end: [await blob.arrayBuffer()] *)
| Digesting (blob : bytes) (settled : string)
    (* end: [await sha256(...)] *)
| Decrypting (settled : error + bytes).
    (* binary: [await aesGcmDecrypt(aesKey, pendingChunkInfo.iv, ct)] *)

(** The variables of the receiver and the calls in flight, oldest first. *)
Record machine : Type := {
  vars : Receiver.state;
  inFlight : list suspended
}.

(** The receiver once [bind] has installed its handler. *)
Definition boot (r : Receiver.state) : machine := {| vars := r; inFlight := [] |}.

(** A call stops at an [await], or ends, among the [others] in flight. *)
Definition suspend (s : suspended) (r : Receiver.state) (others : list suspended)
  : machine :=
  {| vars := r; inFlight := others ++ [s] |}.

Definition finish (r : Receiver.state) (others : list suspended) : machine :=
  {| vars := r; inFlight := others |}.

(** A frame arrives: the handler is called and runs up to its first [await]. *)
Definition arrive (ev : frame) (m : machine) : machine :=
  let r := vars m in
  match ev with
  | FText parsed =>
      match parsed with
      | None => m                           (* [JSON.parse] threw *)
      | Some msg =>
          if negb (truthy (Some msg)) then m
          else if has_type msg "meta" then
            let r := Receiver.set_meta (Some msg) r in
            let r := Receiver.setStatus
                       (StReceiving (prop msg "name") (prop msg "size")) r in
            suspend (ImportingKey (importPubKeyJwk (prop msg "ecdhPub"))) r (inFlight m)
          else if has_type msg "chunk" then
            finish (Receiver.set_pending (Some msg) (prop msg "len") r) (inFlight m)
          else if has_type msg "end" then
            let blob := concat (Receiver.chunks r) in
            suspend (ReadingBlob blob) r (inFlight m)
          else m
      end
  | FBinary data =>
      match Receiver.pendingChunkInfo r with
      | None => m
      | Some info =>
          suspend
            (Decrypting (aesGcmDecrypt (Receiver.aesKey r) (prop info "iv") data))
            r (inFlight m)
      end
  end.

(** An awaited operation settles: the call runs on, with the variables as
    they are by now, up to its next [await] or to its end. A rejection ends
    the call. *)
Definition resume (s : suspended) (r : Receiver.state) (others : list suspended)
  : machine :=
  match s with
  | ImportingKey (inl _) => finish r others
  | ImportingKey (inr senderPub) =>
      match Receiver.myKeys r with
      | None => finish r others             (* [myKeys.privateKey] of [null] *)
      | Some keys =>
          suspend (DerivingKey (deriveAesKey (kp_privateKey keys) senderPub)) r others
      end
  | DerivingKey k =>
      let r := Receiver.set_aesKey (Some k) r in
      match Receiver.myKeys r with
      | None => finish r others
      | Some keys => suspend (ExportingKey (exportPubKeyJwk (kp_publicKey keys))) r others
      end
  | ExportingKey myPubJwk =>
      finish (Receiver.dc_send (text (Receiver.ekey_message myPubJwk)) r) others
  | ReadingBlob blob => suspend (Digesting blob (sha256 blob)) r others
  | Digesting blob hash =>
      if truthy (opt_prop (Receiver.meta r) "hash")
         && negb (strict_eq_string (opt_prop (Receiver.meta r) "hash") hash)
      then finish (Receiver.setStatus StIntegrityFailed r) others
      else finish (Receiver.setStatus StReceived (Receiver.setDownloadUrl blob r)) others
  | Decrypting (inl _) => finish r others
  | Decrypting (inr pt) =>
      let r := Receiver.push_chunk pt r in
      let r := Receiver.set_pending None (Some (JNum 0)) r in
      if truthy (opt_prop (Receiver.meta r) "size")
      then finish
             (Receiver.setProgress
                (Receiver.percent (Receiver.receivedBytes r)
                                  (opt_prop (Receiver.meta r) "size")) r)
             others
      else finish r others
  end.

(** The call of rank [i] among those in flight, and the others. *)
Fixpoint take (i : nat) (l : list suspended) : option (suspended * list suspended) :=
  match l, i with
  | [], _ => None
  | s :: l', O => Some (s, l')
  | s :: l', S i' =>
      match take i' l' with
      | Some (x, rest) => Some (x, s :: rest)
      | None => None
      end
  end.

Definition settle (i : nat) (m : machine) : machine :=
  match take i (inFlight m) with
  | Some (s, others) => resume s (vars m) others
  | None => m
  end.

(** What happens to a receiver: a frame arrives, or the operation awaited by
    the call of rank [i] among those in flight settles. *)
Inductive event : Type :=
| Arrive (ev : frame)
| Settle (i : nat).

Definition step (m : machine) (e : event) : machine :=
  match e with
  | Arrive ev => arrive ev m
  | Settle i => settle i m
  end.

Definition run (es : list event) (m : machine) : machine := fold_left step es m.

(** The frames that arrive in a run, in their order. *)
Fixpoint arrivals (es : list event) : list frame :=
  match es with
  | [] => []
  | Arrive ev :: es' => ev :: arrivals es'
  | Settle _ :: es' => arrivals es'
  end.

(** The run in which whatever a call awaits has settled before the next
    frame arrives; no call awaits more than three operations. *)
Fixpoint serial (frames : list frame) : list event :=
  match frames with
  | [] => []
  | ev :: later => Arrive ev :: Settle 0 :: Settle 0 :: Settle 0 :: serial later
  end.

(** The run in which the last frame arrives while the operation awaited by
    the call for the frame before it is in flight, everything else being as
    in [serial]. *)
Fixpoint last_overtakes (frames : list frame) : list event :=
  match frames with
  | [] => []
  | [ev] => serial [ev]
  | [ev; final] => [Arrive ev; Arrive final; Settle 0; Settle 0; Settle 0]
  | ev :: later => serial [ev] ++ last_overtakes later
  end.

End Async.
End Async.

(** ** A session: one sender and one receiver on an ordered, reliable channel *)

Module Session.
Import Crypto.
Section Session.
Context {W : WebCrypto}.

Variable random : nat -> byte.
Variable clock : nat -> Q.
Variable senderDrawn receiverDrawn : privateKey.
Variable reads : list bytes.
Variable file : File.

(** The receiver once [bind] has installed its handler. *)
Definition receiver0 : Receiver.state :=
  Receiver.bind_dc receiverDrawn Receiver.useReceiver.

(** What the sender emits before any message reaches it. *)
Definition first_flight : list frame :=
  Sender.sentFrames
    (snd (Sender.sendFileInChunks random clock senderDrawn [] reads file Sender.start)).

(** What the receiver answers to it. *)
Definition reply : list frame :=
  Receiver.sentFrames (Receiver.deliver first_flight receiver0).

(** The sender's whole run, the reply being delivered while it waits. *)
Definition sender_run : outcome unit * Sender.world :=
  Sender.sendFileInChunks random clock senderDrawn reply reads file Sender.start.

(** The receiver after every frame of the sender has been delivered. *)
Definition receiver_end : Receiver.state :=
  Receiver.deliver (Sender.sentFrames (snd sender_run)) receiver0.

End Session.
End Session.

(** ** A small platform

    A model of [WebCrypto] on which the definitions above compute: keys are
    numbers, key agreement multiplies them, the digest is a two-byte checksum
    and a ciphertext is the plaintext behind a two-byte tag. It serves to run
    the protocol on concrete inputs. *)

Module Toy.

Definition checksum_step (acc : N * N) (b : byte) : N * N :=
  let a := ((fst acc + Byte.to_N b) mod 256)%N in
  (a, ((snd acc + a) mod 256)%N).

Definition N_to_byte (n : N) : byte := Z_to_byte (Z.of_N n).

Definition checksum (data : bytes) : bytes :=
  let s := fold_left checksum_step data (227%N, 176%N) in
  [N_to_byte (fst s); N_to_byte (snd s)].

Definition import_jwk (j : json) : error + N :=
  match prop j "kty", prop j "x" with
  | Some (JStr "EC"), Some (JNum z) =>
      if (z <? 0)%Z then inl DataError else inr (Z.to_N z)
  | _, _ => inl DataError
  end.

Definition tag (k iv data : bytes) : bytes := checksum (k ++ iv ++ data).

Definition seal (k iv data : bytes) : bytes := tag k iv data ++ data.

Definition open (k iv ct : bytes) : option bytes :=
  match ct with
  | t1 :: t2 :: data =>
      match tag k iv data with
      | [c1; c2] =>
          if (Byte.eqb t1 c1 && Byte.eqb t2 c2)%bool then Some data else None
      | _ => None
      end
  | _ => None
  end.

#[export] Instance platform : WebCrypto := {|
  privateKey := N;
  publicKey := N;
  secretKey := bytes;
  public_of := fun sk => (5 * sk)%N;
  exportKey_jwk := fun pk =>
    JObj [("kty", JStr "EC"); ("crv", JStr "P-256"); ("x", JNum (Z.of_N pk))];
  importKey_jwk := import_jwk;
  deriveBits := fun sk pk => [N_to_byte ((sk * pk) mod 256)];
  digest := checksum;
  importKey_raw := fun b => b;
  encrypt := seal;
  decrypt := open
|}.

End Toy.

(** ** Vocabulary of the statements *)

(** The pieces of at most [CHUNK] bytes a buffer is cut into, front to back;
    a buffer of [n] bytes has at most [n] of them, which bounds the recursion. *)
Fixpoint pieces (fuel : nat) (value : bytes) : list bytes :=
  match fuel, value with
  | S fuel', _ :: _ => firstn CHUNK value :: pieces fuel' (skipn CHUNK value)
  | _, _ => []
  end.

Definition split_chunks (value : bytes) : list bytes := pieces (length value) value.

(** Every element but the last has [n] bytes, and the last has between 1 and
    [n]. *)
Fixpoint full_but_last (n : nat) (ps : list bytes) : Prop :=
  match ps with
  | [] => True
  | [p] => 1 <= length p <= n
  | p :: ps' => length p = n /\ full_but_last n ps'
  end.

Section Frames.
Context {W : WebCrypto}.
Variable random : nat -> byte.

(** The initialisation vector drawn at position [pos] of the random bytes. *)
Definition iv_at (pos : nat) : bytes := map random (seq pos 12).

(** A header frame followed by its ciphertext frame, for each piece in its
    turn, every piece with the next twelve random bytes. *)
Fixpoint chunk_frames (aesKey : secretKey) (pos : nat) (ps : list bytes)
  : list frame :=
  match ps with
  | [] => []
  | p :: ps' =>
      let ct := encrypt aesKey (iv_at pos) p in
      text (Sender.chunk_header (Array_from (iv_at pos)) ct)
        :: FBinary ct
        :: chunk_frames aesKey (pos + 12) ps'
  end.
End Frames.

Section Absorb.
Context {W : WebCrypto}.
Import Receiver.

(** The receiver once a stashed header has met its ciphertext and the
    plaintext [pt] came out of it. *)
Definition after_body (pt : bytes) (r : state) : state :=
  let r1 := set_pending None (Some (JNum 0)) (push_chunk pt r) in
  if truthy (opt_prop (meta r) "size")
  then setProgress (percent (receivedBytes r + length pt) (opt_prop (meta r) "size")) r1
  else r1.

(** ... and once that happened for each piece of [ps] in its turn. *)
Definition absorb (ps : list bytes) (r : state) : state :=
  fold_left (fun r pt => after_body pt r) ps r.
End Absorb.

(** A computation of the sender that takes back none of the frames already
    sent, whatever its outcome. *)
Definition keeps_sent {A : Type} (c : M Sender.world A) : Prop :=
  forall w, exists l, Sender.sentFrames (snd (c w)) = Sender.sentFrames w ++ l.

(** [100 * done / total] *)
Definition pct (done total : nat) : Q := (nat_to_Q done / nat_to_Q total * 100)%Q.

(** The running totals of the lengths of [ps], starting after [from]. *)
Fixpoint running (from : nat) (ps : list bytes) : list nat :=
  match ps with
  | [] => []
  | p :: ps' => (from + length p) :: running (from + length p) ps'
  end.

(** [climbs total lo hi l]: [l] lists the percentages of byte counts that
    increase strictly, all of them above [lo] and none above [hi]. *)
Inductive climbs (total : nat) : nat -> nat -> list Q -> Prop :=
| climbs_nil lo hi : lo <= hi -> climbs total lo hi []
| climbs_cons lo s hi rest :
    lo < s -> s <= hi -> climbs total s hi rest ->
    climbs total lo hi (pct s total :: rest).

(** A sequence of percentages that never decreases. *)
Fixpoint nondecreasing (l : list Q) : Prop :=
  match l with
  | [] => True
  | x :: l' =>
      match l' with
      | [] => True
      | y :: _ => (x <= y)%Q /\ nondecreasing l'
      end
  end.

Definition ends_at_100 (l : list Q) : Prop :=
  exists p, last (map Some l) None = Some p /\ (p == 100)%Q.

(** The values the receiver reported, when all of them are numbers. *)
Fixpoint numbers (l : list (option Q)) : option (list Q) :=
  match l with
  | [] => Some []
  | Some q :: l' =>
      match numbers l' with
      | Some qs => Some (q :: qs)
      | None => None
      end
  | None :: _ => None
  end.

(** ASCII lower case, to compare two strings without regard to letter case. *)
Definition lower_ascii (c : ascii) : ascii :=
  let n := nat_of_ascii c in
  if ((65 <=? n) && (n <=? 90))%bool then ascii_of_nat (n + 32) else c.

Fixpoint lower (s : string) : string :=
  match s with
  | EmptyString => EmptyString
  | String c s' => String (lower_ascii c) (lower s')
  end.

Definition same_ignoring_case (a b : string) : Prop := lower a = lower b.

(** ** Concrete sessions on the small platform *)

Module Examples.
Import Toy.

Definition random (n : nat) : byte := N_to_byte (N.of_nat n).
Definition clock (n : nat) : Q := inject_Z (300 * Z.of_nat n).
Definition senderKey : N := 3%N.
Definition receiverKey : N := 4%N.

Definition letter : File := {| name := "a.txt"; content := [x01; x02; x03] |}.
Definition empty : File := {| name := "empty"; content := [] |}.

Definition receiver0 : Receiver.state := Session.receiver0 receiverKey.

Definition senderJwk : json := Crypto.exportPubKeyJwk (public_of senderKey).

(** The key both sides derive. *)
Definition key : bytes := Crypto.deriveAesKey receiverKey (public_of senderKey).

Definition iv1 : bytes := iv_at random 0.
Definition iv2 : bytes := iv_at random 12.
Definition header1 : json := Sender.chunk_header (Array_from iv1) (seal key iv1 [x01; x02]).
Definition header2 : json := Sender.chunk_header (Array_from iv2) (seal key iv2 [x03]).

(** The header of the only chunk of [letter] when the reader delivers it as
    one block. *)
Definition header_whole : json :=
  Sender.chunk_header (Array_from iv1) (seal key iv1 [x01; x02; x03]).

(** The frames the sender emits for [letter] when the reader delivers it as
    a block of two bytes and a block of one. *)
Definition letter_frames : list frame :=
  Sender.sentFrames
    (snd (Session.sender_run random clock senderKey receiverKey [[x01; x02]; [x03]]
            letter)).

(** The ciphertext of the first chunk with its last byte altered. *)
Definition tampered : bytes := removelast (seal key iv1 [x01; x02]) ++ [xff].

(** The receiver once the meta message of [letter] has been handled, and
    once the first chunk header has been handled as well. *)
Definition letter_meta : json := Sender.meta_message letter senderJwk.
Definition ready : Receiver.state := Receiver.deliver [text letter_meta] receiver0.
Definition awaiting_body : Receiver.state :=
  Receiver.deliver [text header1] ready.

(** The meta message of the empty file, its hash in capital letters. *)
Definition meta_upper : json :=
  JObj [("type", JStr "meta"); ("name", JStr "empty"); ("size", JNum 0);
        ("hash", JStr "E3B0"); ("ecdhPub", senderJwk)].

(** A second meta message, announcing another size and another hash. *)
Definition meta_other : json :=
  JObj [("type", JStr "meta"); ("name", JStr "other"); ("size", JNum 7);
        ("hash", JStr "0000"); ("ecdhPub", senderJwk)].

End Examples.

(** ** src/components/ProgressBar.jsx *)

Module ProgressBar.

(** [Math.min(100, Math.max(0, progress || 0))]; a [progress] that is
    [undefined], [null] or NaN is the [None] of [option Q], and [0 || 0] is
    0. *)
Definition pct (progress : option Q) : Q :=
  let shown := match progress with Some p => p | None => 0%Q end in
  Qmin 100 (Qmax 0 shown).

End ProgressBar.

(** ** More vocabulary *)

(** The rank of a character in a string, counted from [i]. *)
Fixpoint rank_in (s : string) (c : ascii) (i : N) : option N :=
  match s with
  | EmptyString => None
  | String c' s' => if Ascii.eqb c c' then Some i else rank_in s' c (N.succ i)
  end.

(** The value of a hexadecimal digit in lower case. *)
Definition hex_value (c : ascii) : option N := rank_in "0123456789abcdef" c 0.

(** The bytes a string of lower-case hexadecimal digits writes, two digits
    for each byte. *)
Fixpoint unhex (s : string) : option bytes :=
  match s with
  | EmptyString => Some []
  | String h (String l rest) =>
      match hex_value h, hex_value l, unhex rest with
      | Some a, Some b, Some bs =>
          match Byte.of_N (16 * a + b) with
          | Some x => Some (x :: bs)
          | None => None
          end
      | _, _, _ => None
      end
  | String _ EmptyString => None
  end.

(** A delivered frame that resolves [waitForPeerPubKey]. *)
Definition is_ekey (f : frame) : bool :=
  match f with
  | FText (Some msg) => has_type msg "ekey" && truthy (prop msg "pub")
  | _ => false
  end.

(** The number of pieces a buffer of [n] bytes is cut into. *)
Definition chunk_count (n : nat) : nat := (n + CHUNK - 1) / CHUNK.

(** A throughput report with a speed that is not negative and an estimate
    that is absent or not negative. *)
Definition sane (r : report) : Prop :=
  (0 <= speed r)%Q
  /\ match eta r with
     | Some e => (0 <= e)%Q
     | None => True
     end.

(** ** Vocabulary of the runs of the handler cut at its awaits *)

(** The bytes a call in flight adds to the chunks when it settles. *)
Definition weight {W : WebCrypto} (s : Async.suspended) : nat :=
  match s with
  | Async.Decrypting (inr pt) => length pt
  | _ => 0
  end.

Definition bytes_in_flight {W : WebCrypto} (calls : list Async.suspended) : nat :=
  list_sum (map weight calls).

(** [lo <= n1 <= n2 <= ... <= top] for the elements [n1], [n2], ... of [ns]. *)
Fixpoint chain (lo : nat) (ns : list nat) (top : nat) : Prop :=
  match ns with
  | [] => lo <= top
  | n :: ns' => lo <= n /\ chain n ns' top
  end.

Section Honest.
Context {W : WebCrypto}.
Variable random : nat -> byte.
Variable senderDrawn receiverDrawn : privateKey.
Variable file : File.
Variable ps : list bytes.

Local Abbreviation key := (Crypto.deriveAesKey senderDrawn (public_of receiverDrawn)).
Local Abbreviation meta_msg :=
  (Sender.meta_message file (Crypto.exportPubKeyJwk (public_of senderDrawn))).

(** What a call of the meta handler in flight awaits in a session: the
    sender's public key, then the key of the session. *)
Definition expected (s : Async.suspended) : Prop :=
  match s with
  | Async.ImportingKey settled => settled = inr (public_of senderDrawn)
  | Async.DerivingKey settled => settled = key
  | _ => True
  end.

(** Where a receiver stands in the frames the sender emits for the pieces
    [ps]: the frames [rest] have not arrived yet and carry [n] bytes of
    plaintext. Nothing has arrived; or a header (or [end]) comes next; or the
    body of the header that arrived last comes next, and that header is the
    pending one unless a call that settled since cleared it; or [end] has
    arrived. *)
Inductive ahead (rest : list frame) (recorded pending : option json)
          (calls : list Async.suspended) : nat -> Prop :=
| before_meta :
    rest = text meta_msg :: chunk_frames random key 0 ps ++ [text Sender.end_message] ->
    recorded = None ->
    calls = [] ->
    ahead rest recorded pending calls (length (concat ps))
| before_header (pos : nat) (later : list bytes) :
    rest = chunk_frames random key pos later ++ [text Sender.end_message] ->
    recorded = Some meta_msg ->
    ahead rest recorded pending calls (length (concat later))
| before_body (pos : nat) (p : bytes) (later : list bytes) :
    rest = FBinary (encrypt key (iv_at random pos) p)
             :: chunk_frames random key (pos + 12) later ++ [text Sender.end_message] ->
    recorded = Some meta_msg ->
    pending = None
    \/ pending = Some (Sender.chunk_header (Array_from (iv_at random pos))
                                          (encrypt key (iv_at random pos) p)) ->
    ahead rest recorded pending calls (length p + length (concat later))
| after_end :
    rest = [] ->
    recorded = Some meta_msg ->
    ahead rest recorded pending calls 0.

(** A receiver on course in a session, the frames [rest] being still to
    arrive: it holds its own key pair and no other session key than the
    sender's, it has reported the percentages of byte counts that never
    decreased, the last of them being its byte counter once that is not
    zero, and the bytes it counted, those in flight and those still to
    arrive are no more than the file has. *)
Record on_course (rest : list frame) (m : Async.machine) : Prop := {
  course_keys :
    Receiver.myKeys (Async.vars m) = Some (Crypto.generateECDH receiverDrawn);
  course_key :
    Receiver.aesKey (Async.vars m) = None \/ Receiver.aesKey (Async.vars m) = Some key;
  course_calls : Forall expected (Async.inFlight m);
  course_log :
    exists ns,
      Receiver.progressLog (Async.vars m) = map (fun n => Some (pct n (size file))) ns
      /\ chain 0 ns (Receiver.receivedBytes (Async.vars m))
      /\ (size file <> 0 -> Receiver.receivedBytes (Async.vars m) <> 0 ->
          last ns 0 = Receiver.receivedBytes (Async.vars m))
      /\ (size file = 0 -> ns = []);
  course_bytes :
    exists n,
      ahead rest (Receiver.meta (Async.vars m)) (Receiver.pendingChunkInfo (Async.vars m))
            (Async.inFlight m) n
      /\ Receiver.receivedBytes (Async.vars m) + bytes_in_flight (Async.inFlight m) + n
         <= size file
}.

End Honest.

(** * Properties *)

(** ** Values and frames *)

Lemma Z_to_byte_to_Z (b : byte) : Z_to_byte (byte_to_Z b) = b.
Proof. destruct b; reflexivity. Qed.

Lemma new_Uint8Array_from (u8 : bytes) : new_Uint8Array (Some (Array_from u8)) = Some u8.
Proof.
  unfold Array_from; simpl. f_equal.
  rewrite map_map. simpl.
  induction u8 as [|b u8 IH]; simpl; [reflexivity|].
  now rewrite Z_to_byte_to_Z, IH.
Qed.

Lemma strict_eq_string_spec (v : option json) (s : string) :
  strict_eq_string v s = true <-> v = Some (JStr s).
Proof.
  unfold strict_eq_string. destruct v as [[| | |s'| |]|]; try (split; discriminate).
  rewrite String.eqb_eq. split; [now intros ->|now intros [= ->]].
Qed.

Lemma has_type_unique (msg : json) (a b : string) :
  has_type msg a = true -> a <> b -> has_type msg b = false.
Proof.
  unfold has_type. intros Ha Hab.
  apply strict_eq_string_spec in Ha. rewrite Ha. simpl.
  now apply String.eqb_neq.
Qed.

Lemma has_type_truthy (msg : json) (t : string) :
  has_type msg t = true -> truthy (Some msg) = true.
Proof. unfold has_type. destruct msg; simpl; try discriminate. reflexivity. Qed.

(** ** The small platform satisfies what the protocol asks of Web Crypto *)

Module ToyFacts.
Import Toy.

Lemma open_seal (k iv pt : bytes) : open k iv (seal k iv pt) = Some pt.
Proof.
  unfold seal, open, tag, checksum. simpl.
  now rewrite !(Byte.byte_dec_lb eq_refl).
Qed.

Lemma import_export (pk : N) : import_jwk (exportKey_jwk pk) = inr pk.
Proof.
  unfold import_jwk. simpl.
  destruct (Z.ltb_spec (Z.of_N pk) 0) as [H|_]; [lia|].
  now rewrite N2Z.id.
Qed.

Lemma export_truthy (pk : N) : truthy (Some (exportKey_jwk pk)) = true.
Proof. reflexivity. Qed.

Lemma agree (a b : N) :
  deriveBits a (public_of b) = deriveBits b (public_of a).
Proof.
  change ([N_to_byte ((a * (5 * b)) mod 256)] = [N_to_byte ((b * (5 * a)) mod 256)]).
  now replace (a * (5 * b))%N with (b * (5 * a))%N by lia.
Qed.

End ToyFacts.

(** ** The receiver, frame by frame *)

Module ReceiverFacts.
Import Crypto Receiver.
Section ReceiverFacts.
Context {W : WebCrypto}.

Lemma onmessage_chunk (r : state) (msg : json) :
  has_type msg "chunk" = true ->
  onmessage (text msg) r = (Returned tt, set_pending (Some msg) (prop msg "len") r).
Proof.
  intros H. unfold onmessage, text.
  rewrite (has_type_truthy _ _ H). simpl.
  rewrite (has_type_unique msg (b := "meta") H) by discriminate.
  now rewrite H.
Qed.

Lemma onmessage_end (r : state) (msg : json) :
  has_type msg "end" = true ->
  onmessage (text msg) r = on_end r.
Proof.
  intros H. unfold onmessage, text.
  rewrite (has_type_truthy _ _ H). simpl.
  rewrite (has_type_unique msg (b := "meta") H) by discriminate.
  rewrite (has_type_unique msg (b := "chunk") H) by discriminate.
  now rewrite H.
Qed.

Lemma onmessage_meta (r : state) (msg : json) :
  has_type msg "meta" = true ->
  onmessage (text msg) r = on_meta msg r.
Proof.
  intros H. unfold onmessage, text.
  rewrite (has_type_truthy _ _ H). simpl.
  now rewrite H.
Qed.

Lemma on_binary_ok (r : state) (info : json) (data pt : bytes) :
  pendingChunkInfo r = Some info ->
  aesGcmDecrypt (aesKey r) (prop info "iv") data = inr pt ->
  onmessage (FBinary data) r = (Returned tt, after_body pt r).
Proof.
  intros Hp Hd. unfold onmessage, on_binary, after_body.
  rewrite Hp, Hd. simpl.
  now destruct (truthy (opt_prop (meta r) "size")).
Qed.

Lemma on_binary_throws (r : state) (info : json) (data : bytes) (e : error) :
  pendingChunkInfo r = Some info ->
  aesGcmDecrypt (aesKey r) (prop info "iv") data = inl e ->
  onmessage (FBinary data) r = (Threw e, r).
Proof.
  intros Hp Hd. unfold onmessage, on_binary. now rewrite Hp, Hd.
Qed.

Lemma after_body_fields (pt : bytes) (r : state) :
  chunks (after_body pt r) = chunks r ++ [pt]
  /\ receivedBytes (after_body pt r) = receivedBytes r + length pt
  /\ pendingChunkInfo (after_body pt r) = None
  /\ meta (after_body pt r) = meta r
  /\ aesKey (after_body pt r) = aesKey r
  /\ downloads (after_body pt r) = downloads r
  /\ statusLog (after_body pt r) = statusLog r.
Proof.
  unfold after_body. destruct (truthy (opt_prop (meta r) "size")); simpl; repeat split.
Qed.

(** A header of the sender followed by the ciphertext it announces. *)
Lemma header_then_body
      (gcm : forall k iv pt, decrypt k iv (encrypt k iv pt) = Some pt)
      (r : state) (k : secretKey) (iv pt : bytes) :
  aesKey r = Some k ->
  deliver [text (Sender.chunk_header (Array_from iv) (encrypt k iv pt));
           FBinary (encrypt k iv pt)] r
  = after_body pt (set_pending (Some (Sender.chunk_header (Array_from iv) (encrypt k iv pt)))
                               (Some (JNum (Z.of_nat (length (encrypt k iv pt))))) r).
Proof.
  intros Hk. cbn [deliver].
  rewrite onmessage_chunk by reflexivity. cbn [snd].
  erewrite on_binary_ok; [reflexivity|reflexivity|].
  cbn [set_pending aesKey]. rewrite Hk.
  unfold aesGcmDecrypt.
  change (prop (Sender.chunk_header (Array_from iv) (encrypt k iv pt)) "iv")
    with (Some (Array_from iv)).
  now rewrite new_Uint8Array_from, gcm.
Qed.

End ReceiverFacts.
End ReceiverFacts.

(** ** Receiver: frames that do not fit *)






(** ** Receiver: metadata *)

Lemma onmessage_keeps_meta {W : WebCrypto} (r : Receiver.state) (ev : frame) :
  (forall msg, ev = text msg -> has_type msg "meta" = false) ->
  Receiver.meta (snd (Receiver.onmessage ev r)) = Receiver.meta r.
Proof.
  intros H. destruct ev as [[msg|]|data]; unfold Receiver.onmessage; try reflexivity.
  - rewrite (H msg eq_refl).
    destruct (negb (truthy (Some msg))); [reflexivity|].
    destruct (has_type msg "chunk"); [reflexivity|].
    destruct (has_type msg "end"); [|reflexivity].
    unfold Receiver.on_end.
    now destruct (truthy _ && negb _)%bool.
  - unfold Receiver.on_binary.
    destruct (Receiver.pendingChunkInfo r); [|reflexivity].
    destruct (Crypto.aesGcmDecrypt _ _ _); [reflexivity|].
    simpl. now destruct (truthy _).
Qed.

(** C7, as the code has it. The recorded metadata, hence the expected size
    and the expected hash, is left unchanged by every frame that is not a
    meta message (chunk headers, binary frames, end, anything else), whatever
    their number; a later meta message replaces it by its own content. *)
Theorem metadata_changes_only_on_meta {W : WebCrypto}
        (r : Receiver.state) (frames : list frame) :
  (forall msg, In (text msg) frames -> has_type msg "meta" = false) ->
  Receiver.meta (Receiver.deliver frames r) = Receiver.meta r
  /\ (forall msg, has_type msg "meta" = true ->
        Receiver.meta (Receiver.deliver (frames ++ [text msg]) r) = Some msg).
Proof.
  revert r. induction frames as [|ev later IH]; intros r H.
  - split; [reflexivity|]. intros msg Hm. cbn [Receiver.deliver app].
    rewrite ReceiverFacts.onmessage_meta by exact Hm.
    unfold Receiver.on_meta.
    cbn [Receiver.myKeys Receiver.setStatus Receiver.set_meta].
    destruct (Crypto.importPubKeyJwk _); [reflexivity|].
    now destruct (Receiver.myKeys r).
  - assert (Hl : forall msg, In (text msg) later -> has_type msg "meta" = false).
    { intros msg Hin. apply H. now right. }
    destruct (IH (snd (Receiver.onmessage ev r)) Hl) as [IH1 IH2].
    split.
    + cbn [Receiver.deliver]. rewrite IH1. apply onmessage_keeps_meta.
      intros msg ->. apply H. now left.
    + intros msg Hm. cbn [Receiver.deliver app]. now apply IH2.
Qed.

Lemma metadata_changes_only_on_meta_witness :
  Receiver.meta
    (Receiver.deliver [text Examples.header1; FBinary Examples.tampered;
                       text Sender.end_message] Examples.ready)
  = Receiver.meta Examples.ready.
Proof.
  refine (proj1 (@metadata_changes_only_on_meta Toy.platform Examples.ready
                   [text Examples.header1; FBinary Examples.tampered;
                    text Sender.end_message] _)).
  intros msg [H|[H|[H|[]]]]; try discriminate H; injection H as <-; reflexivity.
Defined.

(** C7, as stated, fails: a second meta message announcing another size and
    another hash replaces what the first one recorded. *)
Lemma second_meta_replaces_first :
  opt_prop (Receiver.meta Examples.ready) "size" = Some (JNum 3)
  /\ opt_prop (Receiver.meta Examples.ready) "hash" = Some (JStr "e963")
  /\ opt_prop (Receiver.meta (Receiver.deliver [text Examples.meta_other] Examples.ready))
              "size" = Some (JNum 7)
  /\ opt_prop (Receiver.meta (Receiver.deliver [text Examples.meta_other] Examples.ready))
              "hash" = Some (JStr "0000").
Proof. repeat split. Qed.

(** ** Receiver: the end of the stream *)

(** C10. When [end] arrives and no meta message was ever recorded, or the
    recorded one has no [hash] field, the comparison of digests is not made:
    the handler gives the concatenation of the accumulated chunks to
    [setDownloadUrl] and reports completion with integrity OK. *)
Theorem end_without_hash_completes {W : WebCrypto}
        (r : Receiver.state) (msg : json) :
  has_type msg "end" = true ->
  Receiver.meta r = None \/ opt_prop (Receiver.meta r) "hash" = None ->
  Receiver.onmessage (text msg) r
  = (Returned tt,
     Receiver.setStatus StReceived
       (Receiver.setDownloadUrl (concat (Receiver.chunks r)) r)).
Proof.
  intros He Hm.
  assert (Hh : opt_prop (Receiver.meta r) "hash" = None).
  { destruct Hm as [Hm|Hm]; [now rewrite Hm|exact Hm]. }
  rewrite ReceiverFacts.onmessage_end by exact He.
  unfold Receiver.on_end. now rewrite Hh.
Qed.

Lemma end_without_hash_completes_witness :
  Receiver.downloads
    (snd (Receiver.onmessage (text Sender.end_message) Examples.receiver0)) = [[]]
  /\ Receiver.statusLog
       (snd (Receiver.onmessage (text Sender.end_message) Examples.receiver0))
     = [StWaitingMeta; StReceived].
Proof.
  rewrite (@end_without_hash_completes Toy.platform Examples.receiver0
             Sender.end_message eq_refl (or_introl eq_refl)).
  split; reflexivity.
Defined.

(** C3, as the code has it. At [end] the receiver concatenates the
    accumulated chunks, computes the lower-case hexadecimal digest and compares
    it to the hash recorded from meta as strings, exactly: when the recorded
    hash is that very string the blob is given to [setDownloadUrl] and
    completion is reported; when it is any other non-empty string, one that
    differs in letter case only included, the integrity failure is reported
    and nothing is given to [setDownloadUrl]. *)
Theorem end_compares_hash_exactly {W : WebCrypto}
        (r : Receiver.state) (msg : json) (h : string) :
  has_type msg "end" = true ->
  opt_prop (Receiver.meta r) "hash" = Some (JStr h) ->
  (h = Crypto.sha256 (concat (Receiver.chunks r)) ->
   Receiver.onmessage (text msg) r
   = (Returned tt,
      Receiver.setStatus StReceived
        (Receiver.setDownloadUrl (concat (Receiver.chunks r)) r)))
  /\ (h <> Crypto.sha256 (concat (Receiver.chunks r)) -> h <> "" ->
      Receiver.onmessage (text msg) r
      = (Returned tt, Receiver.setStatus StIntegrityFailed r)
      /\ Receiver.downloads (snd (Receiver.onmessage (text msg) r))
         = Receiver.downloads r).
Proof.
  intros He Hh.
  rewrite ReceiverFacts.onmessage_end by exact He.
  unfold Receiver.on_end. rewrite Hh. simpl.
  split.
  - intros ->. rewrite String.eqb_refl. simpl. now rewrite andb_false_r.
  - intros Hne Hnz.
    apply String.eqb_neq in Hne. apply String.eqb_neq in Hnz.
    rewrite Hne, Hnz. simpl. split; reflexivity.
Qed.

Lemma end_compares_hash_exactly_witness :
  Receiver.downloads
    (snd (Receiver.onmessage (text Sender.end_message)
            (Receiver.deliver [text Examples.meta_other] Examples.receiver0)))
  = [].
Proof.
  refine (eq_trans
            (proj2 (proj2 (@end_compares_hash_exactly Toy.platform
                             (Receiver.deliver [text Examples.meta_other] Examples.receiver0)
                             Sender.end_message "0000" eq_refl eq_refl) _ _))
            eq_refl); vm_compute; discriminate.
Defined.

(** C3, as stated, fails: the digest of the empty content is "e3b0" on the
    small platform; a meta message carrying it in capital letters, the same
    string but for letter case, makes [end] report the integrity failure and
    produce no download. *)
Lemma capital_hash_is_rejected :
  let r := Receiver.deliver [text Examples.meta_upper] Examples.receiver0 in
  opt_prop (Receiver.meta r) "hash" = Some (JStr "E3B0")
  /\ same_ignoring_case "E3B0"
       (Crypto.sha256 (W := Toy.platform) (concat (Receiver.chunks r)))
  /\ Receiver.statusLog (Receiver.deliver [text Sender.end_message] r)
     = [StWaitingMeta; StReceiving (Some (JStr "empty")) (Some (JNum 0));
        StIntegrityFailed]
  /\ Receiver.downloads (Receiver.deliver [text Sender.end_message] r) = [].
Proof. repeat split. Qed.

(** ** Receiver: a chunk that does not authenticate *)

(** C2, as the code has it. When the ciphertext of the pending chunk does not
    authenticate under the key of the session and the initialisation vector
    of the stashed header, an array of byte values as [Array.from] writes it,
    decryption raises and the handler ends there: nothing is appended to the
    accumulated chunks, no counter moves, nothing is reported to the caller
    and the stashed header stays pending; the receiver goes on handling the
    frames that follow from that same state. *)
Theorem failed_authentication_leaves_state {W : WebCrypto}
        (r : Receiver.state) (info : json) (k : secretKey) (iv data : bytes) :
  Receiver.pendingChunkInfo r = Some info ->
  Receiver.aesKey r = Some k ->
  prop info "iv" = Some (Array_from iv) ->
  decrypt k iv data = None ->
  Receiver.onmessage (FBinary data) r = (Threw OperationError, r)
  /\ (forall later,
        Receiver.deliver (FBinary data :: later) r = Receiver.deliver later r).
Proof.
  intros Hp Hk Hiv Hd.
  assert (E : Receiver.onmessage (FBinary data) r = (Threw OperationError, r)).
  { apply ReceiverFacts.on_binary_throws with (info := info); [exact Hp|].
    unfold Crypto.aesGcmDecrypt. now rewrite Hiv, new_Uint8Array_from, Hk, Hd. }
  split; [exact E|]. intros later. cbn [Receiver.deliver]. now rewrite E.
Qed.

Lemma failed_authentication_leaves_state_witness :
  Receiver.onmessage (FBinary Examples.tampered) Examples.awaiting_body
  = (Threw OperationError, Examples.awaiting_body).
Proof.
  exact (proj1 (@failed_authentication_leaves_state Toy.platform
                  Examples.awaiting_body Examples.header1 Examples.key Examples.iv1
                  Examples.tampered eq_refl eq_refl eq_refl eq_refl)).
Defined.

(** C2, as stated, fails: the first chunk arrives tampered and its decryption
    raises, yet no failure is reported, the receiver keeps the state it had,
    and the second chunk that follows is accepted and counted: the data of
    the first chunk is skipped and the transfer goes on. *)
Lemma tampered_chunk_is_skipped :
  let r := Receiver.deliver [FBinary Examples.tampered] Examples.awaiting_body in
  let r' := Receiver.deliver
              [text Examples.header2; FBinary (Toy.seal Examples.key Examples.iv2 [x03])] r in
  fst (Receiver.onmessage (FBinary Examples.tampered) Examples.awaiting_body)
  = Threw OperationError
  /\ r = Examples.awaiting_body
  /\ Receiver.statusLog r
     = [StWaitingMeta; StReceiving (Some (JStr "a.txt")) (Some (JNum 3))]
  /\ Receiver.chunks r' = [[x03]]
  /\ Receiver.receivedBytes r' = 1
  /\ Receiver.statusLog r' = Receiver.statusLog r.
Proof. repeat split. Qed.

(** ** Cutting a buffer into pieces *)

Lemma CHUNK_pos : 0 < CHUNK.
Proof. unfold CHUNK. lia. Qed.

Lemma pieces_enough (f1 f2 : nat) (l : bytes) :
  length l <= f1 -> length l <= f2 -> pieces f1 l = pieces f2 l.
Proof.
  revert f2 l. induction f1 as [|f1 IH]; intros f2 l H1 H2.
  - destruct l; [|cbn [length] in H1; lia]. now destruct f2.
  - destruct l as [|b l]; [now destruct f2|].
    destruct f2 as [|f2]; [cbn [length] in H2; lia|].
    cbn [pieces]. f_equal.
    pose proof CHUNK_pos.
    cbn [length] in H1, H2.
    apply IH; rewrite length_skipn; cbn [length]; lia.
Qed.

Lemma split_chunks_nil : split_chunks [] = [].
Proof. reflexivity. Qed.

Lemma split_chunks_step (l : bytes) :
  l <> [] -> split_chunks l = firstn CHUNK l :: split_chunks (skipn CHUNK l).
Proof.
  intros Hl. unfold split_chunks. destruct l as [|b l]; [congruence|].
  cbn [length pieces]. f_equal.
  pose proof CHUNK_pos.
  apply pieces_enough; rewrite ?length_skipn; cbn [length]; lia.
Qed.

(** Induction on a buffer, [CHUNK] bytes at a time. *)
Lemma chunk_ind (P : bytes -> Prop) :
  P [] ->
  (forall l, l <> [] -> P (skipn CHUNK l) -> P l) ->
  forall l, P l.
Proof.
  intros Hnil Hstep l.
  remember (length l) as n eqn:Hn.
  revert l Hn. induction n as [n IH] using lt_wf_ind. intros l Hn.
  destruct l as [|b l]; [exact Hnil|].
  apply Hstep; [discriminate|].
  pose proof CHUNK_pos.
  apply (IH (length (skipn CHUNK (b :: l)))); [|reflexivity].
  rewrite length_skipn. subst n. cbn [length]. lia.
Qed.

Lemma concat_split_chunks (l : bytes) : concat (split_chunks l) = l.
Proof.
  induction l as [|l Hl IH] using chunk_ind; [reflexivity|].
  rewrite split_chunks_step by exact Hl. cbn [concat].
  rewrite IH. apply firstn_skipn.
Qed.

Lemma split_chunks_bounds (l : bytes) :
  Forall (fun p => 1 <= length p <= CHUNK) (split_chunks l).
Proof.
  induction l as [|l Hl IH] using chunk_ind; [constructor|].
  rewrite split_chunks_step by exact Hl. constructor; [|exact IH].
  rewrite length_firstn. pose proof CHUNK_pos.
  destruct l; [congruence|]. cbn [length]. lia.
Qed.

Lemma split_chunks_full_but_last (l : bytes) : full_but_last CHUNK (split_chunks l).
Proof.
  induction l as [|l Hl IH] using chunk_ind; [exact I|].
  rewrite split_chunks_step by exact Hl.
  destruct (split_chunks (skipn CHUNK l)) as [|q qs] eqn:E.
  - cbn [full_but_last]. rewrite length_firstn. pose proof CHUNK_pos.
    destruct l; [congruence|]. cbn [length]. lia.
  - cbn [full_but_last]. split; [|exact IH].
    apply firstn_length_le.
    destruct (Nat.le_gt_cases CHUNK (length l)) as [H|H]; [exact H|].
    rewrite skipn_all2 in E by lia. discriminate E.
Qed.

Lemma concat_nil_split (values : list bytes) :
  concat values = [] -> concat (map split_chunks values) = [].
Proof.
  induction values as [|v values IH]; [reflexivity|].
  cbn [concat map]. intros H. apply app_eq_nil in H as [-> H].
  now rewrite split_chunks_nil, IH.
Qed.

Lemma concat_concat_split (values : list bytes) :
  concat (concat (map split_chunks values)) = concat values.
Proof.
  induction values as [|v values IH]; [reflexivity|].
  cbn [concat map]. now rewrite concat_app, concat_split_chunks, IH.
Qed.

Lemma concat_split_bounds (values : list bytes) :
  Forall (fun p => 1 <= length p <= CHUNK) (concat (map split_chunks values)).
Proof.
  induction values as [|v values IH]; [constructor|].
  cbn [concat map]. apply Forall_app. split; [apply split_chunks_bounds|exact IH].
Qed.

(** The slice the loop takes at [offset] is the first piece of what is left. *)
Lemma subarray_is_first_piece (value : bytes) (offset : nat) :
  offset < length value ->
  subarray value offset (Nat.min (offset + CHUNK) (length value))
  = firstn CHUNK (skipn offset value).
Proof.
  intros H. unfold subarray.
  destruct (Nat.le_gt_cases (offset + CHUNK) (length value)) as [Hle|Hgt].
  - rewrite Nat.min_l by exact Hle. f_equal. lia.
  - rewrite Nat.min_r by lia.
    rewrite !firstn_all2; [reflexivity| |]; rewrite length_skipn; lia.
Qed.

Lemma skipn_past_slice (value : bytes) (offset : nat) :
  skipn (offset + length (firstn CHUNK (skipn offset value))) value
  = skipn CHUNK (skipn offset value).
Proof.
  rewrite skipn_skipn, length_firstn, length_skipn.
  destruct (Nat.le_gt_cases CHUNK (length value - offset)) as [Hle|Hgt].
  - rewrite Nat.min_l by exact Hle. f_equal. lia.
  - rewrite Nat.min_r by lia.
    rewrite !skipn_all2; [reflexivity| |]; lia.
Qed.

(** ** Percentages *)

Lemma climbs_le (total lo hi : nat) (l : list Q) : climbs total lo hi l -> lo <= hi.
Proof. induction 1; lia. Qed.

Lemma climbs_lower (total lo lo' hi : nat) (l : list Q) :
  lo' <= lo -> climbs total lo hi l -> climbs total lo' hi l.
Proof.
  intros Hlo H. destruct H.
  - constructor. lia.
  - constructor; [lia|assumption..].
Qed.

Lemma climbs_app (total lo mid hi : nat) (l1 l2 : list Q) :
  climbs total lo mid l1 -> climbs total mid hi l2 -> climbs total lo hi (l1 ++ l2).
Proof.
  intros H1 H2. induction H1 as [lo mid Hle|lo s mid rest Hlo Hs H1 IH]; cbn [app].
  - now apply climbs_lower with (lo := mid).
  - pose proof (climbs_le H2). constructor; [lia|lia|]. apply IH, H2.
Qed.

Lemma pct_le (s s' total : nat) : s <= s' -> (pct s total <= pct s' total)%Q.
Proof.
  intros H. unfold pct, Qdiv, nat_to_Q.
  apply Qmult_le_compat_r; [|discriminate].
  apply Qmult_le_compat_r.
  - rewrite <- Zle_Qle. lia.
  - apply Qinv_le_0_compat. change 0%Q with (inject_Z 0). rewrite <- Zle_Qle. lia.
Qed.

Lemma pct_full (total : nat) : 0 < total -> (pct total total == 100)%Q.
Proof.
  intros H. unfold pct, Qdiv. rewrite Qmult_inv_r; [apply Qmult_1_l|].
  unfold nat_to_Q, Qeq. cbn [Qnum Qden inject_Z]. lia.
Qed.

Lemma pct_bound (s total : nat) : s <= total -> (pct s total <= 100)%Q.
Proof.
  intros H. destruct total as [|total].
  - replace s with 0 by lia. discriminate.
  - apply Qle_trans with (y := pct (S total) (S total)); [now apply pct_le|].
    rewrite pct_full by lia. apply Qle_refl.
Qed.

Lemma climbs_above (total lo hi : nat) (l : list Q) :
  climbs total lo hi l -> Forall (fun q => pct lo total <= q)%Q l.
Proof.
  induction 1 as [|lo s hi rest Hlo Hs H IH]; constructor.
  - apply pct_le. lia.
  - eapply Forall_impl; [|exact IH]. cbv beta. intros q Hq.
    eapply Qle_trans; [|exact Hq]. apply pct_le. lia.
Qed.

Lemma climbs_nondecreasing (total lo hi : nat) (l : list Q) :
  climbs total lo hi l -> nondecreasing l.
Proof.
  induction 1 as [|lo s hi rest Hlo Hs H IH]; [exact I|].
  pose proof (climbs_above H) as Ha.
  cbn [nondecreasing]. destruct rest as [|y rest]; [exact I|].
  split; [|exact IH]. now inversion Ha.
Qed.

Lemma climbs_bounded (total lo hi : nat) (l : list Q) :
  climbs total lo hi l -> hi <= total -> Forall (fun q => q <= 100)%Q l.
Proof.
  induction 1 as [|lo s hi rest Hlo Hs H IH]; intros Hhi; constructor.
  - apply pct_bound. lia.
  - now apply IH.
Qed.

Lemma nondecreasing_snoc (l : list Q) (x : Q) :
  nondecreasing l -> Forall (fun q => q <= x)%Q l -> nondecreasing (l ++ [x]).
Proof.
  induction l as [|a l IH]; intros Hn Hb; [exact I|].
  inversion Hb as [|? ? Ha Hl]; subst.
  destruct l as [|b l].
  - cbn. split; [exact Ha|exact I].
  - cbn [app nondecreasing] in *. destruct Hn as [Hab Hn].
    split; [exact Hab|]. now apply IH.
Qed.

Lemma ends_at_100_snoc (l : list Q) : ends_at_100 (l ++ [100%Q]).
Proof.
  exists 100%Q. rewrite map_app. cbn [map]. rewrite last_last. split; reflexivity.
Qed.

Lemma running_climbs (total : nat) (ps : list bytes) :
  Forall (fun p => 1 <= length p) ps ->
  forall from,
    climbs total from (from + length (concat ps))
           (map (fun n => pct n total) (running from ps)).
Proof.
  induction 1 as [|p ps Hp _ IH]; intros from.
  - cbn [concat length running map]. constructor. lia.
  - cbn [concat running map]. rewrite length_app.
    constructor; [lia|lia|].
    specialize (IH (from + length p)).
    now replace (from + (length p + length (concat ps)))
      with (from + length p + length (concat ps)) by lia.
Qed.

Lemma last_map_nonempty {A B : Type} (f : A -> B) (l : list A) (d : B) (d' : A) :
  l <> [] -> last (map f l) d = f (last l d').
Proof.
  induction l as [|a l IH]; [congruence|]. intros _.
  destruct l as [|b l]; [reflexivity|].
  change (last (map f (b :: l)) d = f (last (b :: l) d')).
  apply IH. discriminate.
Qed.

(** ** The sender, statement by statement *)

Module SenderFacts.
Import Crypto Sender.
Section SenderFacts.
Context {W : WebCrypto}.
Variable random : nat -> byte.
Variable clock : nat -> Q.

Local Open Scope js_scope.

Lemma chunk_frames_app (k : secretKey) (pos : nat) (ps qs : list bytes) :
  chunk_frames random k pos (ps ++ qs)
  = chunk_frames random k pos ps ++ chunk_frames random k (pos + 12 * length ps) qs.
Proof.
  revert pos. induction ps as [|p ps IH]; intros pos.
  - cbn [app chunk_frames length]. now rewrite Nat.mul_0_r, Nat.add_0_r.
  - cbn [app chunk_frames length]. rewrite IH.
    now replace (pos + 12 + 12 * length ps) with (pos + 12 * S (length ps)) by lia.
Qed.

Lemma chunk_frames_length (k : secretKey) (ps : list bytes) :
  forall pos, length (chunk_frames random k pos ps) = 2 * length ps.
Proof.
  induction ps as [|p ps IH]; intros pos; [reflexivity|].
  cbn [chunk_frames length]. rewrite IH. lia.
Qed.

(** The frames of the piece of rank [i]: its header, then its ciphertext,
    both made with the random bytes of rank [12 i] to [12 i + 11]. *)
Lemma chunk_frames_nth (k : secretKey) (ps : list bytes) :
  forall pos i p,
    nth_error ps i = Some p ->
    nth_error (chunk_frames random k pos ps) (2 * i)
    = Some (text (chunk_header (Array_from (iv_at random (pos + 12 * i)))
                    (encrypt k (iv_at random (pos + 12 * i)) p)))
    /\ nth_error (chunk_frames random k pos ps) (S (2 * i))
       = Some (FBinary (encrypt k (iv_at random (pos + 12 * i)) p)).
Proof.
  induction ps as [|q ps IH]; intros pos i p Hi.
  - destruct i; discriminate Hi.
  - destruct i as [|i].
    + injection Hi as ->. change (2 * 0) with 0.
      rewrite Nat.mul_0_r, Nat.add_0_r. split; reflexivity.
    + cbn [nth_error] in Hi.
      replace (2 * S i) with (S (S (2 * i))) by lia.
      cbn [chunk_frames nth_error].
      replace (pos + 12 * S i) with (pos + 12 + 12 * i) by lia.
      exact (IH (pos + 12) i p Hi).
Qed.

Lemma throughput_spec (total : nat) (now : Q) (c : counters) (w : world) :
  exists c2 w2,
    throughput total now c w = (Returned c2, w2)
    /\ sent c2 = sent c
    /\ sentFrames w2 = sentFrames w
    /\ randomPos w2 = randomPos w
    /\ statusLog w2 = statusLog w
    /\ (map progress (progressLog w2) = map progress (progressLog w)
        \/ map progress (progressLog w2)
           = map progress (progressLog w) ++ [pct (sent c) total]).
Proof.
  unfold throughput. destruct (Qle_bool 500 (now - lastTime c)).
  - eexists. eexists. split; [reflexivity|].
    cbn [sent sentFrames randomPos statusLog progressLog].
    repeat split. right. rewrite map_app. reflexivity.
  - exists c, w. repeat split. now left.
Qed.

Lemma slice_loop_turn (fuel : nat) (k : secretKey) (total : nat) (value : bytes)
      (offset : nat) (c : counters) (w : world) :
  offset < length value ->
  slice_loop random clock (S fuel) k total value offset c w
  = let slice := firstn CHUNK (skipn offset value) in
    let iv := iv_at random (randomPos w) in
    let ct := encrypt k iv slice in
    let c1 := {| sent := sent c + length slice; lastTime := lastTime c;
                 lastSent := lastSent c |} in
    let w1 := {| randomPos := randomPos w + 12; clockPos := S (clockPos w);
                 sentFrames := (sentFrames w ++ [text (chunk_header (Array_from iv) ct)])
                                 ++ [FBinary ct];
                 progressLog := progressLog w; statusLog := statusLog w |} in
    (c2 <- throughput total (clock (clockPos w)) c1 ;;
     slice_loop random clock fuel k total value (offset + length slice) c2) w1.
Proof.
  intros H. cbn [slice_loop].
  apply Nat.ltb_lt in H as H'. rewrite H'.
  rewrite subarray_is_first_piece by exact H.
  reflexivity.
Qed.

Lemma slice_loop_spec (k : secretKey) (total : nat) (fuel : nat) :
  forall (value : bytes) (offset : nat) (c : counters) (w : world),
    length value - offset <= fuel ->
    exists c' w',
      slice_loop random clock fuel k total value offset c w = (Returned c', w')
      /\ sentFrames w'
         = sentFrames w ++ chunk_frames random k (randomPos w)
                             (split_chunks (skipn offset value))
      /\ randomPos w' = randomPos w + 12 * length (split_chunks (skipn offset value))
      /\ statusLog w' = statusLog w
      /\ sent c' = sent c + length (skipn offset value)
      /\ exists new,
           map progress (progressLog w') = map progress (progressLog w) ++ new
           /\ climbs total (sent c) (sent c') new.
Proof.
  induction fuel as [|fuel IH]; intros value offset c w Hfuel.
  - assert (Hge : length value <= offset) by lia.
    exists c, w. rewrite (skipn_all2 value Hge), split_chunks_nil.
    cbn [slice_loop]. apply Nat.ltb_ge in Hge as ->.
    cbn [chunk_frames length]. rewrite !app_nil_r, Nat.mul_0_r, !Nat.add_0_r.
    repeat split. exists []. rewrite app_nil_r. split; [reflexivity|]. now constructor.
  - destruct (Nat.le_gt_cases (length value) offset) as [Hge|Hlt].
    + exists c, w. rewrite (skipn_all2 value Hge), split_chunks_nil.
      cbn [slice_loop]. apply Nat.ltb_ge in Hge as ->.
      cbn [chunk_frames length]. rewrite !app_nil_r, Nat.mul_0_r, !Nat.add_0_r.
      repeat split. exists []. rewrite app_nil_r. split; [reflexivity|]. now constructor.
    + rewrite slice_loop_turn by exact Hlt. cbv zeta.
      set (slice := firstn CHUNK (skipn offset value)).
      assert (Hrest : skipn offset value <> []).
      { intros E. apply (f_equal (@length byte)) in E.
        rewrite length_skipn in E. cbn [length] in E. lia. }
      assert (Hslice : 1 <= length slice).
      { subst slice. rewrite length_firstn, length_skipn.
        pose proof CHUNK_pos. lia. }
      assert (Hsplit : length (skipn offset value)
                       = length slice + length (skipn (offset + length slice) value)).
      { subst slice. rewrite skipn_past_slice.
        rewrite <- (firstn_skipn CHUNK (skipn offset value)) at 1.
        now rewrite length_app. }
      match goal with
      | |- context [throughput ?t ?n ?c1 ] =>
          destruct (throughput_spec t n c1) with (w := 
            {| randomPos := randomPos w + 12; clockPos := S (clockPos w);
               sentFrames := (sentFrames w ++
                 [text (chunk_header (Array_from (iv_at random (randomPos w)))
                          (encrypt k (iv_at random (randomPos w)) slice))])
                 ++ [FBinary (encrypt k (iv_at random (randomPos w)) slice)];
               progressLog := progressLog w; statusLog := statusLog w |})
            as (c2 & w2 & E & Hsent & Hframes & Hpos & Hstatus & Hprog)
      end.
      unfold bind at 1. rewrite E.
      destruct (IH value (offset + length slice) c2 w2)
        as (c' & w' & E' & Hf' & Hp' & Hs' & Hc' & new' & Hn' & Hclimb').
      { rewrite length_skipn in Hsplit. lia. }
      exists c', w'. split; [exact E'|].
      rewrite (split_chunks_step Hrest). fold slice.
      replace (skipn CHUNK (skipn offset value))
        with (skipn (offset + length slice) value)
        by (subst slice; apply skipn_past_slice).
      cbn [sent sentFrames randomPos statusLog progressLog] in Hsent, Hframes, Hpos, Hstatus, Hprog.
      repeat split.
      * rewrite Hf', Hframes, Hpos. cbn [chunk_frames].
        rewrite <- !app_assoc. reflexivity.
      * rewrite Hp', Hpos. cbn [length]. lia.
      * now rewrite Hs', Hstatus.
      * rewrite Hc', Hsent, Hsplit. lia.
      * rewrite Hsent in Hclimb'.
        destruct Hprog as [Hprog|Hprog].
        -- exists new'. rewrite Hn', Hprog. split; [reflexivity|].
           apply climbs_lower with (lo := sent c + length slice); [lia|exact Hclimb'].
        -- exists (pct (sent c + length slice) total :: new').
           rewrite Hn', Hprog, <- app_assoc. split; [reflexivity|].
           pose proof (climbs_le Hclimb').
           constructor; [lia|lia|exact Hclimb'].
Qed.

Lemma read_loop_spec (k : secretKey) (total : nat) (values : list bytes) :
  forall (c : counters) (w : world),
    exists c' w',
      read_loop random clock k total values c w = (Returned c', w')
      /\ sentFrames w'
         = sentFrames w ++ chunk_frames random k (randomPos w)
                             (concat (map split_chunks values))
      /\ statusLog w' = statusLog w
      /\ sent c' = sent c + length (concat values)
      /\ exists new,
           map progress (progressLog w') = map progress (progressLog w) ++ new
           /\ climbs total (sent c) (sent c') new.
Proof.
  induction values as [|value later IH]; intros c w.
  - exists c, w. cbn [read_loop map concat chunk_frames length].
    rewrite !app_nil_r, Nat.add_0_r. repeat split.
    exists []. rewrite app_nil_r. split; [reflexivity|]. now constructor.
  - cbn [read_loop].
    destruct (slice_loop_spec k total (fuel := length value) value 0 c w)
      as (c1 & w1 & E1 & Hf1 & Hp1 & Hs1 & Hc1 & new1 & Hn1 & Hclimb1); [lia|].
    cbn [skipn] in Hf1, Hp1, Hc1.
    unfold bind at 1. rewrite E1.
    destruct (IH c1 w1) as (c' & w' & E' & Hf' & Hs' & Hc' & new' & Hn' & Hclimb').
    exists c', w'. split; [exact E'|].
    cbn [map concat]. repeat split.
    + rewrite Hf', Hf1, Hp1, chunk_frames_app, <- app_assoc. reflexivity.
    + now rewrite Hs', Hs1.
    + rewrite Hc', Hc1, length_app. lia.
    + exists (new1 ++ new'). rewrite Hn', Hn1, <- app_assoc. split; [reflexivity|].
      now apply climbs_app with (mid := sent c1).
Qed.

Lemma bind_returned {A B : Type} (c : M world A) (k : A -> M world B)
      (w w1 : world) (a : A) :
  c w = (Returned a, w1) -> bind c k w = k a w1.
Proof. intros E. unfold bind. now rewrite E. Qed.

(** The whole run of the sender, once the peer's key arrives and imports. *)
Lemma sendFileInChunks_spec (drawn : privateKey) (inbox : list frame)
      (reads : list bytes) (file : File) (peerPubJwk : json) (peerPubKey : publicKey) :
  (forall w, waitForPeerPubKey inbox w = (Returned peerPubJwk, w)) ->
  importKey_jwk peerPubJwk = inr peerPubKey ->
  exists w',
    sendFileInChunks random clock drawn inbox reads file start = (Returned tt, w')
    /\ sentFrames w'
       = text (meta_message file (exportPubKeyJwk (public_of drawn)))
           :: chunk_frames random (deriveAesKey drawn peerPubKey) 0
                (concat (map split_chunks reads))
           ++ [text end_message]
    /\ statusLog w' = [StHashing; StWaitingKey; StSending; StSent]
    /\ exists new,
         map progress (progressLog w') = new ++ [100%Q]
         /\ climbs (size file) 0 (length (concat reads)) new.
Proof.
  intros Hwait Himport.
  unfold sendFileInChunks. cbv zeta.
  erewrite bind_returned by reflexivity.
  erewrite bind_returned by reflexivity.
  erewrite bind_returned by reflexivity.
  erewrite bind_returned by apply Hwait.
  erewrite bind_returned
    by (unfold await, importPubKeyJwk; rewrite Himport; reflexivity).
  erewrite bind_returned by reflexivity.
  erewrite bind_returned by reflexivity.
  match goal with
  | |- context [read_loop _ _ ?k ?t ?vs ?c] =>
      match goal with
      | |- context [bind (read_loop _ _ k t vs c) _ ?w] =>
          destruct (read_loop_spec k t vs c w)
            as (c' & w' & E & Hf & Hs & Hc & new & Hn & Hclimb)
      end
  end.
  erewrite bind_returned by exact E.
  erewrite bind_returned by reflexivity.
  erewrite bind_returned by reflexivity.
  eexists. split; [reflexivity|].
  cbn [sentFrames statusLog progressLog randomPos sent kp_privateKey generateECDH
                  kp_publicKey start app] in *.
  repeat split.
  - rewrite Hf. reflexivity.
  - rewrite Hs. reflexivity.
  - exists new. rewrite map_app, Hn. split; [reflexivity|].
    now rewrite Hc in Hclimb.
Qed.

(** *** Frames once sent stay sent *)

Lemma keeps_sent_ret {A : Type} (a : A) : keeps_sent (ret a).
Proof. intros w. exists []. now rewrite app_nil_r. Qed.

Lemma keeps_sent_bind {A B : Type} (c : M world A) (k : A -> M world B) :
  keeps_sent c -> (forall a, keeps_sent (k a)) -> keeps_sent (bind c k).
Proof.
  intros Hc Hk w. unfold bind. destruct (Hc w) as [l Hl].
  destruct (c w) as [[a| | |] w1]; cbn [snd] in *; try (now exists l).
  destruct (Hk a w1) as [l' Hl']. exists (l ++ l').
  now rewrite Hl', Hl, app_assoc.
Qed.

Lemma keeps_sent_same {A : Type} (c : M world A) :
  (forall w, sentFrames (snd (c w)) = sentFrames w) -> keeps_sent c.
Proof. intros H w. exists []. now rewrite app_nil_r. Qed.

Lemma keeps_sent_dc_send (f : frame) : keeps_sent (dc_send f).
Proof. intros w. now exists [f]. Qed.

Lemma keeps_sent_throughput (total : nat) (now : Q) (c : counters) :
  keeps_sent (throughput total now c).
Proof.
  unfold throughput. destruct (Qle_bool 500 (now - lastTime c)).
  - apply keeps_sent_bind; [now apply keeps_sent_same|intros; apply keeps_sent_ret].
  - apply keeps_sent_ret.
Qed.

Lemma keeps_sent_slice_loop (k : secretKey) (total : nat) (value : bytes) (fuel : nat) :
  forall offset c, keeps_sent (slice_loop random clock fuel k total value offset c).
Proof.
  induction fuel as [|fuel IH]; intros offset c; cbn [slice_loop];
    destruct (offset <? length value); try apply keeps_sent_ret.
  - now apply keeps_sent_same.
  - apply keeps_sent_bind.
    + apply keeps_sent_bind; [now apply keeps_sent_same|intros; apply keeps_sent_ret].
    + intros [iv ct].
      apply keeps_sent_bind; [apply keeps_sent_dc_send|intros _].
      apply keeps_sent_bind; [apply keeps_sent_dc_send|intros _].
      apply keeps_sent_bind; [now apply keeps_sent_same|intros now].
      apply keeps_sent_bind; [apply keeps_sent_throughput|intros c2].
      apply IH.
Qed.

Lemma keeps_sent_read_loop (k : secretKey) (total : nat) (values : list bytes) :
  forall c, keeps_sent (read_loop random clock k total values c).
Proof.
  induction values as [|value later IH]; intros c; cbn [read_loop].
  - apply keeps_sent_ret.
  - apply keeps_sent_bind; [apply keeps_sent_slice_loop|intros c1; apply IH].
Qed.

Lemma keeps_sent_wait (inbox : list frame) : keeps_sent (waitForPeerPubKey inbox).
Proof.
  induction inbox as [|[[msg|]|data] later IH]; cbn [waitForPeerPubKey]; try exact IH.
  - now apply keeps_sent_same.
  - destruct (has_type msg "ekey" && truthy (prop msg "pub"))%bool; [|exact IH].
    destruct (prop msg "pub"); [apply keeps_sent_ret|exact IH].
Qed.

Lemma keeps_sent_await {A : Type} (p : error + A) : keeps_sent (await p).
Proof. apply keeps_sent_same. intros w. now destruct p. Qed.

(** Whatever happens next, the meta message is the first frame sent. *)
Lemma meta_sent_first (drawn : privateKey) (inbox : list frame)
      (reads : list bytes) (file : File) :
  exists rest,
    sentFrames (snd (sendFileInChunks random clock drawn inbox reads file start))
    = text (meta_message file (exportPubKeyJwk (public_of drawn))) :: rest.
Proof.
  unfold sendFileInChunks. cbv zeta.
  erewrite bind_returned by reflexivity.
  erewrite bind_returned by reflexivity.
  match goal with
  | |- context [snd (?c ?w)] =>
      assert (H : keeps_sent c); [|destruct (H w) as [rest Hrest]]
  end.
  - apply keeps_sent_bind; [now apply keeps_sent_same|intros _].
    apply keeps_sent_bind; [apply keeps_sent_wait|intros jwk].
    apply keeps_sent_bind; [apply keeps_sent_await|intros pk].
    apply keeps_sent_bind; [now apply keeps_sent_same|intros now0].
    apply keeps_sent_bind; [now apply keeps_sent_same|intros _].
    apply keeps_sent_bind; [apply keeps_sent_read_loop|intros c].
    apply keeps_sent_bind; [apply keeps_sent_dc_send|intros _].
    apply keeps_sent_bind; [now apply keeps_sent_same|intros _].
    now apply keeps_sent_same.
  - exists rest. rewrite Hrest. reflexivity.
Qed.

End SenderFacts.
End SenderFacts.

(** ** The receiver fed with the frames of the sender *)

Module SessionFacts.
Import Crypto.
Section SessionFacts.
Context {W : WebCrypto}.

(** What the protocol asks of Web Crypto. *)
Hypothesis jwk_roundtrip : forall pk, importKey_jwk (exportKey_jwk pk) = inr pk.
Hypothesis jwk_truthy : forall pk, truthy (Some (exportKey_jwk pk)) = true.
Hypothesis ecdh_agree :
  forall a b, deriveBits a (public_of b) = deriveBits b (public_of a).
Hypothesis gcm_roundtrip : forall k iv pt, decrypt k iv (encrypt k iv pt) = Some pt.

Variable random : nat -> byte.
Variable clock : nat -> Q.
Variable senderDrawn receiverDrawn : privateKey.
Variable reads : list bytes.
Variable file : File.

Local Abbreviation key := (deriveAesKey senderDrawn (public_of receiverDrawn)).
Local Abbreviation meta_msg :=
  (Sender.meta_message file (exportPubKeyJwk (public_of senderDrawn))).
Local Abbreviation ekey_msg :=
  (Receiver.ekey_message (exportPubKeyJwk (public_of receiverDrawn))).

Lemma deliver_app (frames later : list frame) (r : Receiver.state) :
  Receiver.deliver (frames ++ later) r = Receiver.deliver later (Receiver.deliver frames r).
Proof.
  revert r. induction frames as [|ev frames IH]; intros r; [reflexivity|].
  cbn [app Receiver.deliver]. apply IH.
Qed.

Lemma same_key : deriveAesKey receiverDrawn (public_of senderDrawn) = key.
Proof. unfold key, deriveAesKey. now rewrite ecdh_agree. Qed.

(** The receiver once it has handled the meta message. *)
Lemma receiver_after_meta :
  Receiver.deliver [text meta_msg] (Session.receiver0 receiverDrawn)
  = Receiver.dc_send (text ekey_msg)
      (Receiver.set_aesKey
         (Some (deriveAesKey receiverDrawn (public_of senderDrawn)))
         (Receiver.setStatus
            (StReceiving (Some (JStr (name file))) (Some (JNum (Z.of_nat (size file)))))
            (Receiver.set_meta (Some meta_msg) (Session.receiver0 receiverDrawn)))).
Proof.
  cbn [Receiver.deliver].
  rewrite ReceiverFacts.onmessage_meta by reflexivity.
  unfold Receiver.on_meta, Session.receiver0, Receiver.bind_dc.
  cbn [Receiver.myKeys Receiver.set_myKeys Receiver.setStatus Receiver.set_meta].
  change (prop meta_msg "ecdhPub") with (Some (exportKey_jwk (public_of senderDrawn))).
  unfold importPubKeyJwk. rewrite jwk_roundtrip.
  reflexivity.
Qed.

Lemma first_flight_is_meta :
  Session.first_flight random clock senderDrawn reads file = [text meta_msg].
Proof. reflexivity. Qed.

Lemma reply_is_ekey :
  Session.reply random clock senderDrawn receiverDrawn reads file = [text ekey_msg].
Proof.
  unfold Session.reply. rewrite first_flight_is_meta, receiver_after_meta. reflexivity.
Qed.

Lemma wait_gets_ekey (w : Sender.world) :
  Sender.waitForPeerPubKey [text ekey_msg] w
  = (Returned (exportPubKeyJwk (public_of receiverDrawn)), w).
Proof.
  cbn [Sender.waitForPeerPubKey text].
  change (has_type ekey_msg "ekey") with true.
  change (prop ekey_msg "pub") with (Some (exportKey_jwk (public_of receiverDrawn))).
  now rewrite jwk_truthy.
Qed.

(** The sender's run in the session. *)
Lemma sender_run_spec :
  exists w',
    Session.sender_run random clock senderDrawn receiverDrawn reads file
    = (Returned tt, w')
    /\ Sender.sentFrames w'
       = text meta_msg
           :: chunk_frames random key 0 (concat (map split_chunks reads))
           ++ [text Sender.end_message]
    /\ Sender.statusLog w' = [StHashing; StWaitingKey; StSending; StSent]
    /\ exists new,
         map progress (Sender.progressLog w') = new ++ [100%Q]
         /\ climbs (size file) 0 (length (concat reads)) new.
Proof.
  unfold Session.sender_run. rewrite reply_is_ekey.
  apply SenderFacts.sendFileInChunks_spec
    with (peerPubJwk := exportPubKeyJwk (public_of receiverDrawn)).
  - exact wait_gets_ekey.
  - apply jwk_roundtrip.
Qed.

Lemma after_body_pending (pt : bytes) (info len : option json) (r : Receiver.state) :
  after_body pt (Receiver.set_pending info len r) = after_body pt r.
Proof.
  unfold after_body. cbn [Receiver.meta Receiver.set_pending Receiver.receivedBytes].
  now destruct (truthy (opt_prop (Receiver.meta r) "size")).
Qed.

Lemma absorb_fields (ps : list bytes) :
  forall r,
    Receiver.chunks (absorb ps r) = Receiver.chunks r ++ ps
    /\ Receiver.meta (absorb ps r) = Receiver.meta r
    /\ Receiver.aesKey (absorb ps r) = Receiver.aesKey r
    /\ Receiver.downloads (absorb ps r) = Receiver.downloads r
    /\ Receiver.statusLog (absorb ps r) = Receiver.statusLog r
    /\ Receiver.receivedBytes (absorb ps r)
       = Receiver.receivedBytes r + length (concat ps)
    /\ Receiver.progressLog (absorb ps r)
       = Receiver.progressLog r
         ++ (if truthy (opt_prop (Receiver.meta r) "size")
             then map (fun n => Receiver.percent n (opt_prop (Receiver.meta r) "size"))
                      (running (Receiver.receivedBytes r) ps)
             else []).
Proof.
  induction ps as [|p ps IH]; intros r.
  - cbn [absorb fold_left concat length running map].
    rewrite app_nil_r, Nat.add_0_r. repeat split.
    destruct (truthy _); now rewrite app_nil_r.
  - change (absorb (p :: ps) r) with (absorb ps (after_body p r)).
    destruct (IH (after_body p r)) as (Hc & Hm & Hk & Hd & Hs & Hb & Hp).
    destruct (ReceiverFacts.after_body_fields p r)
      as (Hc1 & Hb1 & _ & Hm1 & Hk1 & Hd1 & Hs1).
    rewrite Hc, Hm, Hk, Hd, Hs, Hb, Hp, Hc1, Hb1, Hm1, Hk1, Hd1, Hs1.
    cbn [concat running map]. rewrite length_app, <- app_assoc.
    repeat split; [lia|].
    unfold after_body.
    destruct (truthy (opt_prop (Receiver.meta r) "size")); cbn [Receiver.progressLog
      Receiver.setProgress Receiver.set_pending Receiver.push_chunk];
      now rewrite <- ?app_assoc, ?app_nil_r.
Qed.

(** Each header with its ciphertext hands the receiver one more piece. *)
Lemma deliver_chunk_frames (k : secretKey) (ps : list bytes) :
  forall (pos : nat) (r : Receiver.state) (later : list frame),
    Receiver.aesKey r = Some k ->
    Receiver.deliver (chunk_frames random k pos ps ++ later) r
    = Receiver.deliver later (absorb ps r).
Proof.
  induction ps as [|p ps IH]; intros pos r later Hk; [reflexivity|].
  cbn [chunk_frames app]. cbv zeta.
  change (?h :: ?b :: ?rest ++ later) with ([h; b] ++ (rest ++ later)).
  rewrite deliver_app.
  rewrite (ReceiverFacts.header_then_body gcm_roundtrip r (iv_at random pos) p Hk).
  rewrite after_body_pending.
  rewrite IH; [reflexivity|].
  destruct (ReceiverFacts.after_body_fields p r) as (_ & _ & _ & _ & Hk1 & _).
  now rewrite Hk1.
Qed.

(** The receiver at the end of the session. *)
Lemma receiver_end_spec :
  concat reads = content file ->
  Session.receiver_end random clock senderDrawn receiverDrawn reads file
  = Receiver.setStatus StReceived
      (Receiver.setDownloadUrl (content file)
         (absorb (concat (map split_chunks reads))
            (Receiver.deliver [text meta_msg] (Session.receiver0 receiverDrawn)))).
Proof.
  intros Hreads. unfold Session.receiver_end.
  destruct sender_run_spec as (w' & E & Hf & _).
  rewrite E. cbn [snd]. rewrite Hf.
  change (text meta_msg :: ?fs ++ ?e) with ([text meta_msg] ++ fs ++ e).
  rewrite deliver_app.
  set (r1 := Receiver.deliver [text meta_msg] (Session.receiver0 receiverDrawn)).
  assert (Hk : Receiver.aesKey r1 = Some key).
  { subst r1. rewrite receiver_after_meta. cbn [Receiver.aesKey Receiver.dc_send
      Receiver.set_aesKey]. now rewrite same_key. }
  assert (Hm : Receiver.meta r1 = Some meta_msg).
  { subst r1. rewrite receiver_after_meta. reflexivity. }
  rewrite deliver_chunk_frames with (k := key) by exact Hk.
  cbn [Receiver.deliver].
  rewrite ReceiverFacts.onmessage_end by reflexivity.
  unfold Receiver.on_end.
  destruct (absorb_fields (concat (map split_chunks reads)) r1)
    as (Hc & Hm' & _).
  rewrite Hm', Hm, Hc.
  assert (Hr1 : Receiver.chunks r1 = []).
  { subst r1. rewrite receiver_after_meta. reflexivity. }
  rewrite Hr1. cbn [app]. rewrite concat_concat_split, Hreads.
  change (opt_prop (Some meta_msg) "hash") with (Some (JStr (sha256 (content file)))).
  cbn [strict_eq_string]. rewrite String.eqb_refl.
  cbn [negb]. rewrite andb_false_r. reflexivity.
Qed.

(** What the receiver reported as progress during the session. *)
Lemma receiver_progress :
  concat reads = content file ->
  Receiver.progressLog
    (Session.receiver_end random clock senderDrawn receiverDrawn reads file)
  = if (size file =? 0)
    then []
    else map (fun n => Receiver.percent n (Some (JNum (Z.of_nat (size file)))))
             (running 0 (concat (map split_chunks reads))).
Proof.
  intros Hreads. rewrite receiver_end_spec by exact Hreads.
  cbn [Receiver.progressLog Receiver.setStatus Receiver.setDownloadUrl].
  destruct (absorb_fields (concat (map split_chunks reads))
              (Receiver.deliver [text meta_msg] (Session.receiver0 receiverDrawn)))
    as (_ & _ & _ & _ & _ & _ & Hp).
  rewrite Hp, receiver_after_meta.
  cbn [Receiver.progressLog Receiver.meta Receiver.receivedBytes Receiver.dc_send
       Receiver.set_aesKey Receiver.setStatus Receiver.set_meta
       Session.receiver0 Receiver.bind_dc Receiver.set_myKeys Receiver.useReceiver app].
  change (opt_prop (Some meta_msg) "size") with (Some (JNum (Z.of_nat (size file)))).
  cbn [truthy].
  destruct (Nat.eqb_spec (size file) 0) as [Hz|Hz].
  - rewrite Hz. reflexivity.
  - destruct (Z.eqb_spec (Z.of_nat (size file)) 0) as [Hz'|_]; [lia|reflexivity].
Qed.

End SessionFacts.
End SessionFacts.

(** ** The handler cut at its awaits *)

Module AsyncFacts.
Import Crypto Async.
Section AsyncFacts.
Context {W : WebCrypto}.

Lemma run_app (es later : list event) (m : machine) :
  run (es ++ later) m = run later (run es m).
Proof. apply fold_left_app. Qed.

Lemma arrivals_serial (frames : list frame) : arrivals (serial frames) = frames.
Proof.
  induction frames as [|ev frames IH]; [reflexivity|].
  cbn [serial arrivals]. now rewrite IH.
Qed.

(** A call whose awaited operations settle at once, nothing else being in
    flight, is the handler run to its end. *)
Lemma call_settles (ev : frame) (r : Receiver.state) :
  run [Arrive ev; Settle 0; Settle 0; Settle 0] (boot r)
  = boot (snd (Receiver.onmessage ev r)).
Proof.
  unfold run, boot. cbn [fold_left step].
  destruct ev as [[msg|]|data]; unfold arrive, Receiver.onmessage; cbn [vars inFlight].
  - destruct (negb (truthy (Some msg))); [reflexivity|].
    destruct (has_type msg "meta").
    { unfold Receiver.on_meta.
      destruct r as [mt rb ch eb pd [keys|] ak pl sl dl sf];
        cbv [suspend finish settle take resume app inFlight vars Receiver.myKeys
             Receiver.set_aesKey Receiver.setStatus Receiver.set_meta];
        now destruct (importPubKeyJwk (prop msg "ecdhPub")). }
    destruct (has_type msg "chunk"); [reflexivity|].
    destruct (has_type msg "end"); [|reflexivity].
    unfold Receiver.on_end.
    cbv [suspend finish settle take resume app inFlight vars].
    now destruct (truthy _ && negb _)%bool.
  - reflexivity.
  - unfold Receiver.on_binary.
    destruct (Receiver.pendingChunkInfo r) as [info|]; [|reflexivity].
    cbv [suspend finish settle take resume app inFlight vars].
    destruct (aesGcmDecrypt _ _ _) as [e|pt]; [reflexivity|].
    now destruct (truthy _).
Qed.

Lemma run_serial (frames : list frame) (r : Receiver.state) :
  run (serial frames) (boot r) = boot (Receiver.deliver frames r).
Proof.
  revert r. induction frames as [|ev frames IH]; intros r; [reflexivity|].
  change (serial (ev :: frames))
    with ([Arrive ev; Settle 0; Settle 0; Settle 0] ++ serial frames).
  rewrite run_app, call_settles. cbn [Receiver.deliver]. apply IH.
Qed.

Lemma take_middle (others rest : list suspended) (s : suspended) :
  take (length others) (others ++ s :: rest) = Some (s, others ++ rest).
Proof.
  induction others as [|c others IH]; [reflexivity|].
  cbn [length app take]. now rewrite IH.
Qed.

(** The call of rank [length others] settles. *)
Lemma settle_middle (r : Receiver.state) (others rest : list suspended) (s : suspended) :
  settle (length others) {| vars := r; inFlight := others ++ s :: rest |}
  = resume s r (others ++ rest).
Proof. unfold settle. cbn [inFlight vars]. now rewrite take_middle. Qed.

(** The call that stopped last settles. *)
Lemma settle_last (r : Receiver.state) (others : list suspended) (s : suspended) :
  settle (length others) (suspend s r others) = resume s r others.
Proof. unfold suspend. now rewrite settle_middle, app_nil_r. Qed.

Lemma resume_decrypted (pt : bytes) (r : Receiver.state) (others : list suspended) :
  resume (Decrypting (inr pt)) r others = finish (after_body pt r) others.
Proof.
  unfold resume, after_body. cbn [Receiver.meta Receiver.set_pending Receiver.push_chunk
    Receiver.receivedBytes].
  now destruct (truthy (opt_prop (Receiver.meta r) "size")).
Qed.

(** A binary frame meets a pending header whose initialisation vector is an
    array of byte values. *)
Lemma arrive_body (m : machine) (info : json) (k : secretKey) (iv data : bytes) :
  Receiver.pendingChunkInfo (vars m) = Some info ->
  Receiver.aesKey (vars m) = Some k ->
  prop info "iv" = Some (Array_from iv) ->
  arrive (FBinary data) m
  = suspend (Decrypting match decrypt k iv data with
                        | Some pt => inr pt
                        | None => inl OperationError
                        end) (vars m) (inFlight m).
Proof.
  intros Hp Hk Hiv. unfold arrive. cbv zeta. rewrite Hp, Hk, Hiv.
  unfold aesGcmDecrypt. now rewrite new_Uint8Array_from.
Qed.

Lemma arrive_header (m : machine) (msg : json) :
  has_type msg "chunk" = true ->
  arrive (text msg) m
  = finish (Receiver.set_pending (Some msg) (prop msg "len") (vars m)) (inFlight m).
Proof.
  intros H. unfold arrive, text. cbv zeta.
  rewrite (has_type_truthy _ _ H). cbn [negb].
  rewrite (has_type_unique msg (b := "meta") H) by discriminate.
  now rewrite H.
Qed.

End AsyncFacts.

(** *** A session, whatever the moments at which the operations settle *)

Section OnCourse.
Context {W : WebCrypto}.

Hypothesis jwk_roundtrip : forall pk, importKey_jwk (exportKey_jwk pk) = inr pk.
Hypothesis ecdh_agree :
  forall a b, deriveBits a (public_of b) = deriveBits b (public_of a).
Hypothesis gcm_roundtrip : forall k iv pt, decrypt k iv (encrypt k iv pt) = Some pt.

Variable random : nat -> byte.
Variable senderDrawn receiverDrawn : privateKey.
Variable file : File.
Variable ps : list bytes.

Local Abbreviation key := (deriveAesKey senderDrawn (public_of receiverDrawn)).
Local Abbreviation meta_msg :=
  (Sender.meta_message file (exportPubKeyJwk (public_of senderDrawn))).
Local Abbreviation on_course := (on_course random senderDrawn receiverDrawn file ps).
Local Abbreviation awaited := (expected senderDrawn receiverDrawn).

Lemma bytes_in_flight_app (calls : list suspended) (s : suspended) :
  bytes_in_flight (calls ++ [s]) = bytes_in_flight calls + weight s.
Proof.
  unfold bytes_in_flight. rewrite map_app, list_sum_app. cbn [map list_sum fold_right]. lia.
Qed.

Lemma take_spec (i : nat) :
  forall (calls others : list suspended) (s : suspended),
    take i calls = Some (s, others) ->
    (Forall awaited calls -> awaited s /\ Forall awaited others)
    /\ bytes_in_flight calls = weight s + bytes_in_flight others.
Proof.
  induction i as [|i IH]; intros [|c calls] others s E; try discriminate E.
  - injection E as <- <-. split; [intros H; now inversion H|reflexivity].
  - cbn [take] in E. destruct (take i calls) as [[x rest]|] eqn:Et; [|discriminate E].
    injection E as <- <-. destruct (IH _ _ _ Et) as [Hf Hb]. split.
    + intros H. inversion H as [|? ? Hc Hcs]; subst.
      destruct (Hf Hcs). split; [assumption|now constructor].
    + change (bytes_in_flight (c :: calls)) with (weight c + bytes_in_flight calls).
      change (bytes_in_flight (c :: rest)) with (weight c + bytes_in_flight rest).
      lia.
Qed.

Lemma chain_snoc (ns : list nat) : forall lo top top',
  chain lo ns top -> top <= top' -> chain lo (ns ++ [top']) top'.
Proof.
  induction ns as [|n ns IH]; intros lo top top' H Hle; cbn [chain app] in *.
  - split; lia.
  - destruct H. split; [assumption|]. now apply IH with (top := top).
Qed.

Lemma chain_grow (ns : list nat) : forall lo top top',
  chain lo ns top -> top <= top' -> chain lo ns top'.
Proof.
  induction ns as [|n ns IH]; intros lo top top' H Hle; cbn [chain] in *.
  - lia.
  - destruct H. split; [assumption|]. now apply IH with (top := top).
Qed.

Ltac fields :=
  cbn [vars inFlight suspend finish boot
       Receiver.myKeys Receiver.aesKey Receiver.progressLog Receiver.receivedBytes
       Receiver.meta Receiver.pendingChunkInfo Receiver.chunks
       Receiver.setStatus Receiver.set_meta Receiver.set_pending Receiver.push_chunk
       Receiver.set_aesKey Receiver.dc_send Receiver.setDownloadUrl
       Receiver.setProgress] in *.

Lemma on_course_arrive (ev : frame) (rest : list frame) (m : machine) :
  on_course (ev :: rest) m -> on_course rest (arrive ev m).
Proof.
  intros [Hkeys Hkey Hcalls Hlog (n & Hahead & Hbytes)].
  destruct Hahead as [Hrest Hrec Hnone|pos later Hrest Hrec
                     |pos p later Hrest Hrec Hpend|Hrest Hrec].
  - injection Hrest as -> ->.
    change (arrive (text meta_msg) m)
      with (suspend
              (ImportingKey (importPubKeyJwk (Some (exportKey_jwk (public_of senderDrawn)))))
              (Receiver.setStatus
                 (StReceiving (prop meta_msg "name") (prop meta_msg "size"))
                 (Receiver.set_meta (Some meta_msg) (vars m)))
              (inFlight m)).
    unfold importPubKeyJwk. rewrite jwk_roundtrip.
    constructor; fields; try assumption.
    + apply Forall_app. split; [assumption|]. constructor; [reflexivity|constructor].
    + exists (length (concat ps)). split; [now apply before_header with (pos := 0)|].
      rewrite bytes_in_flight_app. cbn [weight]. lia.
  - destruct later as [|p later]; cbn [chunk_frames app] in Hrest; cbv zeta in Hrest;
      injection Hrest as -> ->.
    + change (arrive (text Sender.end_message) m)
        with (suspend (ReadingBlob (concat (Receiver.chunks (vars m)))) (vars m)
                      (inFlight m)).
      constructor; fields; try assumption.
      * apply Forall_app. split; [assumption|]. constructor; [exact I|constructor].
      * exists 0. split; [now apply after_end|].
        rewrite bytes_in_flight_app. cbn [weight concat length] in *. lia.
    + match goal with
      | |- context [arrive (text ?h) m] =>
          change (arrive (text h) m)
            with (finish (Receiver.set_pending (Some h) (prop h "len") (vars m))
                         (inFlight m))
      end.
      constructor; fields; try assumption.
      exists (length p + length (concat later)). split.
      * apply before_body with (pos := pos); [reflexivity|assumption|now right].
      * cbn [concat] in Hbytes. rewrite length_app in Hbytes. lia.
  - injection Hrest as -> ->.
    unfold arrive. cbv zeta.
    destruct Hpend as [Hp|Hp]; rewrite Hp.
    + constructor; try assumption.
      exists (length (concat later)). split; [|lia].
      now apply before_header with (pos := pos + 12).
    + match goal with
      | |- context [prop ?h "iv"] =>
          change (prop h "iv") with (Some (Array_from (iv_at random pos)))
      end.
      unfold aesGcmDecrypt. rewrite new_Uint8Array_from.
      destruct Hkey as [Hk|Hk]; rewrite Hk; [|rewrite gcm_roundtrip];
        (constructor; fields; try assumption;
         [rewrite ?Hk; auto
         |apply Forall_app; split; [assumption|]; constructor; [exact I|constructor]
         |exists (length (concat later)); split;
          [now apply before_header with (pos := pos + 12)
          |rewrite bytes_in_flight_app; cbn [weight]; lia]]).
  - discriminate Hrest.
Qed.

Lemma on_course_settle (i : nat) (rest : list frame) (m : machine) :
  on_course rest m -> on_course rest (settle i m).
Proof.
  intros Hm. unfold settle.
  destruct (take i (inFlight m)) as [[s others]|] eqn:Et; [|exact Hm].
  destruct Hm as [Hkeys Hkey Hcalls Hlog (n & Hahead & Hbytes)].
  destruct (take_spec _ _ Et) as [Hexp Hw]. destruct (Hexp Hcalls) as [Hs Hothers].
  assert (Hstand : Receiver.meta (vars m) = Some meta_msg
                   /\ forall pending calls,
                        pending = Receiver.pendingChunkInfo (vars m) \/ pending = None ->
                        ahead random senderDrawn receiverDrawn file ps rest
                              (Receiver.meta (vars m)) pending calls n).
  { destruct Hahead as [Hrest Hrec Hnone|pos later Hrest Hrec
                       |pos p later Hrest Hrec Hpend|Hrest Hrec].
    - rewrite Hnone in Et. destruct i; discriminate Et.
    - split; [assumption|]. intros. now apply before_header with (pos := pos).
    - split; [assumption|]. intros pending calls [->| ->];
        apply before_body with (pos := pos); auto.
    - split; [assumption|]. intros. now apply after_end. }
  destruct Hstand as [Hmeta Hstand].
  destruct s as [[e|senderPub]|k|jwk|blob|blob hash|[e|pt]];
    cbn [resume weight expected] in *.
  - constructor; fields; try assumption. exists n. split; [now apply Hstand; left|lia].
  - rewrite Hkeys. injection Hs as ->.
    cbn [kp_privateKey generateECDH]. rewrite (SessionFacts.same_key ecdh_agree).
    constructor; fields; try assumption.
    + apply Forall_app. split; [assumption|]. constructor; [reflexivity|constructor].
    + exists n. split; [now apply Hstand; left|].
      rewrite bytes_in_flight_app. cbn [weight]. lia.
  - fields. rewrite Hkeys. subst k.
    constructor; fields; try assumption.
    + now right.
    + apply Forall_app. split; [assumption|]. constructor; [exact I|constructor].
    + exists n. split; [now apply Hstand; left|].
      rewrite bytes_in_flight_app. cbn [weight]. lia.
  - constructor; fields; try assumption. exists n. split; [now apply Hstand; left|lia].
  - constructor; fields; try assumption.
    + apply Forall_app. split; [assumption|]. constructor; [exact I|constructor].
    + exists n. split; [now apply Hstand; left|].
      rewrite bytes_in_flight_app. cbn [weight]. lia.
  - destruct (truthy _ && negb _)%bool; constructor; fields; try assumption;
      exists n; (split; [now apply Hstand; left|lia]).
  - constructor; fields; try assumption. exists n. split; [now apply Hstand; left|lia].
  - fields. rewrite Hmeta.
    change (opt_prop (Some meta_msg) "size") with (Some (JNum (Z.of_nat (size file)))).
    destruct Hlog as (ns & Hlog & Hchain & Hlast & Hzero).
    cbn [truthy].
    destruct (Z.eqb_spec (Z.of_nat (size file)) 0) as [Hz|Hz]; cbn [negb].
    + constructor; fields; try assumption.
      * exists ns. split; [assumption|]. split; [apply chain_grow with (1 := Hchain); lia|].
        split; [intros; lia|assumption].
      * exists n. split; [rewrite <- ?Hmeta; now apply Hstand; right|lia].
    + constructor; fields; try assumption.
      * exists (ns ++ [Receiver.receivedBytes (vars m) + length pt]).
        rewrite map_app. split; [now rewrite Hlog|].
        split; [apply chain_snoc with (1 := Hchain); lia|].
        split; [intros; apply last_last|intros; lia].
      * exists n. split; [rewrite <- ?Hmeta; now apply Hstand; right|lia].
Qed.

Lemma on_course_run (es : list event) :
  forall (m : machine) (later : list frame),
    on_course (arrivals es ++ later) m -> on_course later (run es m).
Proof.
  induction es as [|[ev|i] es IH]; intros m later Hm; [exact Hm| |].
  - apply IH. now apply on_course_arrive.
  - apply IH. now apply on_course_settle.
Qed.

Lemma on_course_boot :
  length (concat ps) = size file ->
  on_course (text meta_msg :: chunk_frames random key 0 ps ++ [text Sender.end_message])
            (boot (Session.receiver0 receiverDrawn)).
Proof.
  intros Hps. constructor; fields.
  - reflexivity.
  - now left.
  - constructor.
  - exists []. repeat split. cbn. lia.
  - exists (length (concat ps)). split; [now apply before_meta|].
    cbn [Session.receiver0 Receiver.bind_dc Receiver.receivedBytes Receiver.set_myKeys
         Receiver.setStatus Receiver.useReceiver bytes_in_flight map list_sum fold_right].
    lia.
Qed.

Lemma numbers_some (f : nat -> Q) (ns : list nat) :
  numbers (map (fun n => Some (f n)) ns) = Some (map f ns).
Proof.
  induction ns as [|n ns IH]; [reflexivity|].
  cbn [map numbers]. now rewrite IH.
Qed.

Lemma chain_nondecreasing (total : nat) (ns : list nat) :
  forall lo top, chain lo ns top ->
    nondecreasing (map (fun n => pct n total) ns)
    /\ Forall (fun n => n <= top) ns.
Proof.
  induction ns as [|n ns IH]; intros lo top H; [split; [exact I|constructor]|].
  cbn [chain] in H. destruct H as [_ H].
  destruct (IH n top H) as [Hn Hf]. split.
  - cbn [map nondecreasing]. destruct ns as [|n' ns]; [exact I|].
    cbn [map]. split; [|exact Hn].
    cbn [chain] in H. apply pct_le. lia.
  - constructor; [|exact Hf].
    clear - H. revert n H. induction ns as [|n' ns IH]; intros n H; cbn [chain] in H.
    + exact H.
    + destruct H as [H1 H2]. specialize (IH _ H2). lia.
Qed.

(** What a receiver on course has reported. *)
Lemma on_course_progress (later : list frame) (m : machine) :
  on_course later m ->
  exists receiver,
    numbers (Receiver.progressLog (vars m)) = Some receiver
    /\ nondecreasing receiver
    /\ Forall (fun q => q <= 100)%Q receiver
    /\ (0 < size file -> Receiver.receivedBytes (vars m) = size file ->
        ends_at_100 receiver)
    /\ (size file = 0 -> receiver = []).
Proof.
  intros [_ _ _ (ns & Hlog & Hchain & Hlast & Hzero) (n & _ & Hbytes)].
  exists (map (fun n => pct n (size file)) ns).
  destruct (chain_nondecreasing (size file) _ _ _ Hchain) as [Hn Hf].
  split; [rewrite Hlog; apply numbers_some|].
  split; [exact Hn|].
  split.
  { rewrite Forall_forall in *. intros q Hq.
    apply in_map_iff in Hq as (k & <- & Hk). apply pct_bound.
    specialize (Hf k Hk). cbv beta in Hf. lia. }
  split.
  - intros Hpos Hall.
    assert (Hl : last ns 0 = size file) by (rewrite <- Hall; apply Hlast; lia).
    assert (Hne : ns <> []) by (intros ->; cbn in Hl; lia).
    exists (pct (size file) (size file)). split; [|now apply pct_full].
    rewrite map_map. rewrite (last_map_nonempty _ None 0 Hne). now rewrite Hl.
  - intros Hz. now rewrite (Hzero Hz).
Qed.

End OnCourse.
End AsyncFacts.

(** ** The session *)

(** C1. The code does not keep the round trip. The sender cuts, encrypts
    and frames the three bytes of a file and runs to completion, and its four
    frames reach the receiver in order. The [end] frame arrives while the
    decryption of the chunk before it is in flight: the blob is made at once
    of the chunks pushed so far, which are none. The decryption then settles
    and the chunk is pushed, too late: the digest of the empty blob is not
    the recorded hash, so the receiver reports the integrity failure and
    exposes nothing, although it holds the whole content. The same frames
    give the content for download when every call has settled before the next
    frame arrives. *)
Theorem end_overtakes_the_last_chunk :
  let sender :=
    Session.sender_run (W := Toy.platform) Examples.random Examples.clock
      Examples.senderKey Examples.receiverKey [content Examples.letter] Examples.letter in
  let frames := Sender.sentFrames (snd sender) in
  let body := FBinary (Toy.seal Examples.key Examples.iv1 [x01; x02; x03]) in
  let raced :=
    Async.vars (Async.run (Async.last_overtakes frames) (Async.boot Examples.receiver0)) in
  let paced :=
    Async.vars (Async.run (Async.serial frames) (Async.boot Examples.receiver0)) in
  fst sender = Returned tt
  /\ frames = [text Examples.letter_meta; text Examples.header_whole; body;
                text Sender.end_message]
  /\ Async.last_overtakes frames
     = [Async.Arrive (text Examples.letter_meta);
        Async.Settle 0; Async.Settle 0; Async.Settle 0;
        Async.Arrive (text Examples.header_whole);
        Async.Settle 0; Async.Settle 0; Async.Settle 0;
        Async.Arrive body; Async.Arrive (text Sender.end_message);
        Async.Settle 0; Async.Settle 0; Async.Settle 0]
  /\ Receiver.chunks raced = [content Examples.letter]
  /\ Receiver.downloads raced = []
  /\ Receiver.statusLog raced
     = [StWaitingMeta; StReceiving (Some (JStr "a.txt")) (Some (JNum 3));
        StIntegrityFailed]
  /\ Receiver.downloads paced = [content Examples.letter]
  /\ last (Receiver.statusLog paced) StWaitingMeta = StReceived.
Proof. repeat split. Qed.

(** C8, as the code has it. The first frame the sender emits, whatever
    happens afterwards, is the text frame of one object whose fields are, in
    this order, [type] (the string "meta"), [name], [size], [hash] (the
    digest of the content) and [ecdhPub] (the sender's exported public key). *)
Theorem meta_frame_fields {W : WebCrypto}
        (random : nat -> byte) (clock : nat -> Q) (drawn : privateKey)
        (inbox : list frame) (reads : list bytes) (file : File) :
  let m := Sender.meta_message file (Crypto.exportPubKeyJwk (public_of drawn)) in
  (exists rest,
      Sender.sentFrames
        (snd (Sender.sendFileInChunks random clock drawn inbox reads file Sender.start))
      = text m :: rest)
  /\ keys m = ["type"; "name"; "size"; "hash"; "ecdhPub"]
  /\ prop m "type" = Some (JStr "meta")
  /\ prop m "name" = Some (JStr (name file))
  /\ prop m "size" = Some (JNum (Z.of_nat (size file)))
  /\ prop m "hash" = Some (JStr (Crypto.sha256 (content file)))
  /\ prop m "ecdhPub" = Some (Crypto.exportPubKeyJwk (public_of drawn)).
Proof.
  intros m. split; [apply SenderFacts.meta_sent_first|].
  repeat split.
Qed.

(** C8, as stated, fails: the object the sender emits has no field named
    [exchangePublicKey]; the exported key travels under [ecdhPub]. *)
Lemma meta_frame_has_no_exchangePublicKey :
  exists m,
    Session.first_flight (W := Toy.platform) Examples.random Examples.clock Examples.senderKey
      [[x01; x02]; [x03]] Examples.letter = [text m]
    /\ prop m "exchangePublicKey" = None
    /\ keys m <> ["type"; "name"; "size"; "hash"; "exchangePublicKey"].
Proof.
  eexists. split; [reflexivity|]. split; [reflexivity|].
  vm_compute. discriminate.
Qed.

(** C6, as the code has it. The sender cuts each block the stream reader
    delivers, in the order of the file, into pieces of exactly 64 KiB but for
    the last piece of the block, which has between 1 and 64 KiB; every piece
    is non-empty and of at most 64 KiB, and the pieces put end to end are the
    content. When the reader delivers the content as one block only the final
    chunk is shorter, and a zero-length file produces no chunk. Between the
    meta frame and the end frame, the sender emits for the piece of rank [i],
    ranks in increasing order, the [chunk] header text frame immediately
    followed by one binary frame, the ciphertext of that piece under the
    twelve random bytes of rank [12 i] to [12 i + 11], which no other piece
    uses. *)
Theorem sender_streams_pieces_in_order {W : WebCrypto}
        (jwk_roundtrip : forall pk, importKey_jwk (exportKey_jwk pk) = inr pk)
        (jwk_truthy : forall pk, truthy (Some (exportKey_jwk pk)) = true)
        (random : nat -> byte) (clock : nat -> Q)
        (senderDrawn receiverDrawn : privateKey)
        (reads : list bytes) (file : File) :
  concat reads = content file ->
  let ps := concat (map split_chunks reads) in
  let key := Crypto.deriveAesKey senderDrawn (public_of receiverDrawn) in
  let run := Session.sender_run random clock senderDrawn receiverDrawn reads file in
  fst run = Returned tt
  /\ Sender.sentFrames (snd run)
     = text (Sender.meta_message file (Crypto.exportPubKeyJwk (public_of senderDrawn)))
         :: chunk_frames random key 0 ps ++ [text Sender.end_message]
  /\ (forall i p,
        nth_error ps i = Some p ->
        nth_error (Sender.sentFrames (snd run)) (1 + 2 * i)
        = Some (text (Sender.chunk_header (Array_from (iv_at random (12 * i)))
                        (encrypt key (iv_at random (12 * i)) p)))
        /\ nth_error (Sender.sentFrames (snd run)) (2 + 2 * i)
           = Some (FBinary (encrypt key (iv_at random (12 * i)) p)))
  /\ concat ps = content file
  /\ Forall (fun p => 1 <= length p <= CHUNK) ps
  /\ Forall (fun value => full_but_last CHUNK (split_chunks value)) reads
  /\ (reads = [content file] -> full_but_last CHUNK ps)
  /\ (content file = [] -> ps = []).
Proof.
  intros Hreads ps key run.
  destruct (SessionFacts.sender_run_spec jwk_roundtrip jwk_truthy random clock
              senderDrawn receiverDrawn reads file) as (w' & E & Hf & _).
  fold run in E. fold ps key in Hf. rewrite E. cbn [fst snd].
  split; [reflexivity|]. split; [exact Hf|]. split.
  - intros i p Hi. rewrite Hf.
    assert (Hlt : i < length ps) by (apply nth_error_Some; congruence).
    destruct (SenderFacts.chunk_frames_nth random key ps 0 i Hi) as [H1 H2].
    cbn [Nat.add] in H1, H2.
    split.
    + change (nth_error (?x :: ?l) (1 + 2 * i)) with (nth_error l (2 * i)).
      rewrite nth_error_app1 by (rewrite SenderFacts.chunk_frames_length; lia).
      exact H1.
    + change (nth_error (?x :: ?l) (2 + 2 * i)) with (nth_error l (S (2 * i))).
      rewrite nth_error_app1 by (rewrite SenderFacts.chunk_frames_length; lia).
      exact H2.
  - split; [subst ps; now rewrite concat_concat_split|].
    split; [apply concat_split_bounds|].
    split; [apply Forall_forall; intros value _; apply split_chunks_full_but_last|].
    split.
    + intros ->. subst ps. cbn [map concat]. rewrite app_nil_r.
      apply split_chunks_full_but_last.
    + intros Hnil. apply concat_nil_split. now rewrite Hreads.
Qed.

Lemma sender_streams_pieces_in_order_witness :
  concat [[x01; x02]; [x03]] = content Examples.letter
  /\ fst (Session.sender_run (W := Toy.platform) Examples.random Examples.clock
            Examples.senderKey Examples.receiverKey [[x01; x02]; [x03]] Examples.letter)
     = Returned tt.
Proof.
  split; [reflexivity|].
  exact (proj1
    (@sender_streams_pieces_in_order Toy.platform ToyFacts.import_export
       ToyFacts.export_truthy Examples.random Examples.clock
       Examples.senderKey Examples.receiverKey [[x01; x02]; [x03]] Examples.letter
       eq_refl)).
Defined.

(** C6, as stated, fails: when the reader delivers the three bytes of a file
    as a block of two and a block of one, the sender emits two chunks; the
    first one holds two bytes, far less than 64 KiB, and is not the final
    chunk. *)
Lemma short_chunk_before_the_last :
  concat [[x01; x02]; [x03]] = content Examples.letter
  /\ Sender.sentFrames
       (snd (Session.sender_run (W := Toy.platform) Examples.random Examples.clock
               Examples.senderKey Examples.receiverKey [[x01; x02]; [x03]]
               Examples.letter))
     = [text Examples.letter_meta;
        text Examples.header1; FBinary (Toy.seal Examples.key Examples.iv1 [x01; x02]);
        text Examples.header2; FBinary (Toy.seal Examples.key Examples.iv2 [x03]);
        text Sender.end_message]
  /\ Toy.open Examples.key Examples.iv1 (Toy.seal Examples.key Examples.iv1 [x01; x02])
     = Some [x01; x02]
  /\ length [x01; x02] <> CHUNK.
Proof.
  repeat split. cbn [length]. unfold CHUNK. lia.
Qed.




(** * Further properties of the code *)

(** ** src/lib/crypto.js *)

Lemma hex_concat_cons (b : byte) (bs : bytes) :
  String.concat "" (map Crypto.hex2 (b :: bs))
  = (Crypto.hex2 b ++ String.concat "" (map Crypto.hex2 bs))%string.
Proof.
  destruct bs as [|b' bs]; [|reflexivity].
  cbn [map String.concat]. unfold Crypto.hex2. reflexivity.
Qed.

Lemma unhex_hex2 (b : byte) (rest : string) :
  unhex (Crypto.hex2 b ++ rest)%string
  = match unhex rest with
    | Some bs => Some (b :: bs)
    | None => None
    end.
Proof. destruct b; cbn; destruct (unhex rest); reflexivity. Qed.

Lemma lower_hex2 (b : byte) (rest : string) :
  lower (Crypto.hex2 b ++ rest)%string = (Crypto.hex2 b ++ lower rest)%string.
Proof. destruct b; reflexivity. Qed.

Lemma unhex_hex_string (bs : bytes) :
  unhex (String.concat "" (map Crypto.hex2 bs)) = Some bs.
Proof.
  induction bs as [|b bs IH]; [reflexivity|].
  now rewrite hex_concat_cons, unhex_hex2, IH.
Qed.

(** X1. The hexadecimal string [sha256] returns writes the digest and
    nothing else: reading it back two digits at a time gives the bytes of the
    digest, so two buffers get the same string exactly when they have the
    same digest. *)
Theorem sha256_hex_is_faithful {W : WebCrypto} (a b : bytes) :
  unhex (Crypto.sha256 a) = Some (digest a)
  /\ (Crypto.sha256 a = Crypto.sha256 b <-> digest a = digest b).
Proof.
  split; [apply unhex_hex_string|]. split.
  - intros H. apply (f_equal unhex) in H.
    unfold Crypto.sha256 in H. rewrite !unhex_hex_string in H. congruence.
  - intros H. unfold Crypto.sha256. now rewrite H.
Qed.

(** X2. The string [sha256] returns has two characters for each byte of the
    digest and is already in lower case: putting it in lower case changes
    nothing. *)
Theorem sha256_hex_shape {W : WebCrypto} (buffer : bytes) :
  String.length (Crypto.sha256 buffer) = 2 * length (digest buffer)
  /\ lower (Crypto.sha256 buffer) = Crypto.sha256 buffer.
Proof.
  unfold Crypto.sha256. induction (digest buffer) as [|b bs [IHl IHc]].
  - split; reflexivity.
  - rewrite hex_concat_cons. split.
    + change (String.length (Crypto.hex2 b ++ ?s)%string) with (S (S (String.length s))).
      rewrite IHl. cbn [length]. lia.
    + now rewrite lower_hex2, IHc.
Qed.

(** X3. What [aesGcmEncrypt] returns decrypts with [aesGcmDecrypt]: the
    initialisation vector written as an array of numbers, as it travels in
    the chunk header, is read back as the same twelve bytes and the plaintext
    comes out, provided AES-GCM decryption undoes encryption. *)
Theorem aesGcm_round_trip {W : WebCrypto}
        (gcm_roundtrip : forall k iv pt, decrypt k iv (encrypt k iv pt) = Some pt)
        (aesKey : secretKey) (iv data : bytes) :
  Crypto.aesGcmDecrypt (Some aesKey)
                       (Some (fst (Crypto.aesGcmEncrypt aesKey iv data)))
                       (snd (Crypto.aesGcmEncrypt aesKey iv data))
  = inr data.
Proof.
  unfold Crypto.aesGcmEncrypt, Crypto.aesGcmDecrypt. cbn [fst snd].
  now rewrite new_Uint8Array_from, gcm_roundtrip.
Qed.

Lemma aesGcm_round_trip_witness :
  Crypto.aesGcmDecrypt (W := Toy.platform) (Some Examples.key)
    (Some (fst (Crypto.aesGcmEncrypt (W := Toy.platform) Examples.key Examples.iv1
                  [x01; x02])))
    (snd (Crypto.aesGcmEncrypt (W := Toy.platform) Examples.key Examples.iv1
            [x01; x02]))
  = inr [x01; x02].
Proof.
  exact (@aesGcm_round_trip Toy.platform ToyFacts.open_seal Examples.key
           Examples.iv1 [x01; x02]).
Defined.

(** ** The sender while it waits for the peer's key *)

Lemma wait_stalls (inbox : list frame) :
  forallb (fun f => negb (is_ekey f)) inbox = true ->
  forall w, Sender.waitForPeerPubKey inbox w = (Stalled, w).
Proof.
  induction inbox as [|f inbox IH]; intros H w; [reflexivity|].
  cbn [forallb] in H. apply andb_true_iff in H as [Hf H].
  apply negb_true_iff in Hf.
  destruct f as [[msg|]|data]; cbn [Sender.waitForPeerPubKey]; try (now apply IH).
  cbn [is_ekey] in Hf. rewrite Hf. now apply IH.
Qed.

Lemma wait_skips (junk later : list frame) (msg pub : json) :
  forallb (fun f => negb (is_ekey f)) junk = true ->
  has_type msg "ekey" = true ->
  prop msg "pub" = Some pub ->
  truthy (Some pub) = true ->
  forall w, Sender.waitForPeerPubKey (junk ++ text msg :: later) w = (Returned pub, w).
Proof.
  intros Hjunk Ht Hp Htr.
  induction junk as [|f junk IH]; intros w.
  - cbn [app Sender.waitForPeerPubKey text]. now rewrite Ht, Hp, Htr.
  - cbn [forallb] in Hjunk. apply andb_true_iff in Hjunk as [Hf Hjunk].
    apply negb_true_iff in Hf.
    destruct f as [[m|]|data]; cbn [app Sender.waitForPeerPubKey]; try (now apply IH).
    cbn [is_ekey] in Hf. rewrite Hf. now apply IH.
Qed.

(** X4. [waitForPeerPubKey] resolves with the [pub] of the first delivered
    message that is text, parses, has type "ekey" and a truthy [pub]; binary
    frames, text that does not parse, messages of another type and ekey
    messages without a usable [pub] that arrive before it are passed over,
    and what arrives after it is not looked at. *)
Theorem wait_takes_first_ekey (junk later : list frame) (msg pub : json)
        (w : Sender.world) :
  forallb (fun f => negb (is_ekey f)) junk = true ->
  has_type msg "ekey" = true ->
  prop msg "pub" = Some pub ->
  truthy (Some pub) = true ->
  Sender.waitForPeerPubKey (junk ++ text msg :: later) w = (Returned pub, w).
Proof.
  intros Hjunk Ht Hp Htr. revert w.
  induction junk as [|f junk IH]; intros w.
  - cbn [app Sender.waitForPeerPubKey text]. now rewrite Ht, Hp, Htr.
  - cbn [forallb] in Hjunk. apply andb_true_iff in Hjunk as [Hf Hjunk].
    apply negb_true_iff in Hf.
    destruct f as [[m|]|data]; cbn [app Sender.waitForPeerPubKey]; try (now apply IH).
    cbn [is_ekey] in Hf. rewrite Hf. now apply IH.
Qed.

Lemma wait_takes_first_ekey_witness :
  Sender.waitForPeerPubKey
    ([FBinary [x00]; FText None; text Sender.end_message;
      text (JObj [("type", JStr "ekey"); ("pub", JNull)])]
       ++ text (Receiver.ekey_message Examples.senderJwk) :: [text Examples.meta_other])
    Sender.start
  = (Returned Examples.senderJwk, Sender.start).
Proof.
  exact (@wait_takes_first_ekey
           [FBinary [x00]; FText None; text Sender.end_message;
            text (JObj [("type", JStr "ekey"); ("pub", JNull)])]
           [text Examples.meta_other]
           (Receiver.ekey_message Examples.senderJwk) Examples.senderJwk
           Sender.start eq_refl eq_refl eq_refl eq_refl).
Defined.

(** X5. As long as no usable ekey message is delivered, the sender stays
    suspended after the meta frame: the meta frame is the only frame sent, no
    byte of the file has left, no initialisation vector was drawn, the clock
    was not read, nothing was reported as progress, and the status is the one
    of waiting for the receiver's key. *)
Theorem sender_sends_nothing_before_key {W : WebCrypto}
        (random : nat -> byte) (clock : nat -> Q) (drawn : privateKey)
        (inbox : list frame) (reads : list bytes) (file : File) :
  forallb (fun f => negb (is_ekey f)) inbox = true ->
  Sender.sendFileInChunks random clock drawn inbox reads file Sender.start
  = (Stalled,
     {| Sender.randomPos := 0; Sender.clockPos := 0;
        Sender.sentFrames :=
          [text (Sender.meta_message file (Crypto.exportPubKeyJwk (public_of drawn)))];
        Sender.progressLog := [];
        Sender.statusLog := [StHashing; StWaitingKey] |}).
Proof.
  intros H. unfold Sender.sendFileInChunks. cbv zeta.
  erewrite SenderFacts.bind_returned by reflexivity.
  erewrite SenderFacts.bind_returned by reflexivity.
  erewrite SenderFacts.bind_returned by reflexivity.
  unfold bind at 1. now rewrite (wait_stalls inbox H).
Qed.

Lemma sender_sends_nothing_before_key_witness :
  fst (Sender.sendFileInChunks (W := Toy.platform) Examples.random Examples.clock
         Examples.senderKey [FBinary [x00]; text Sender.end_message]
         [[x01; x02]; [x03]] Examples.letter Sender.start)
  = Stalled.
Proof.
  exact (f_equal fst
           (@sender_sends_nothing_before_key Toy.platform Examples.random Examples.clock
              Examples.senderKey [FBinary [x00]; text Sender.end_message]
              [[x01; x02]; [x03]] Examples.letter eq_refl)).
Defined.

(** X6. When the first usable ekey message carries a key that [importKey]
    rejects, [sendFileInChunks] throws that error right there: the meta frame
    is the only frame sent, neither a chunk nor [end] follows, and nothing is
    reported as progress. *)
Theorem sender_stops_on_rejected_key {W : WebCrypto}
        (random : nat -> byte) (clock : nat -> Q) (drawn : privateKey)
        (junk later : list frame) (msg pub : json) (e : error)
        (reads : list bytes) (file : File) :
  forallb (fun f => negb (is_ekey f)) junk = true ->
  has_type msg "ekey" = true ->
  prop msg "pub" = Some pub ->
  truthy (Some pub) = true ->
  importKey_jwk pub = inl e ->
  Sender.sendFileInChunks random clock drawn (junk ++ text msg :: later) reads file
                          Sender.start
  = (Threw e,
     {| Sender.randomPos := 0; Sender.clockPos := 0;
        Sender.sentFrames :=
          [text (Sender.meta_message file (Crypto.exportPubKeyJwk (public_of drawn)))];
        Sender.progressLog := [];
        Sender.statusLog := [StHashing; StWaitingKey] |}).
Proof.
  intros Hjunk Ht Hp Htr Himp. unfold Sender.sendFileInChunks. cbv zeta.
  erewrite SenderFacts.bind_returned by reflexivity.
  erewrite SenderFacts.bind_returned by reflexivity.
  erewrite SenderFacts.bind_returned by reflexivity.
  erewrite SenderFacts.bind_returned
    by apply (wait_skips junk later msg Hjunk Ht Hp Htr).
  unfold bind at 1, await, Crypto.importPubKeyJwk. cbv beta iota. now rewrite Himp.
Qed.

Lemma sender_stops_on_rejected_key_witness :
  fst (Sender.sendFileInChunks (W := Toy.platform) Examples.random Examples.clock
         Examples.senderKey
         ([FBinary [x00]] ++ text (Receiver.ekey_message (JStr "key")) :: [])
         [[x01; x02]; [x03]] Examples.letter Sender.start)
  = Threw DataError.
Proof.
  exact (f_equal fst
           (@sender_stops_on_rejected_key Toy.platform Examples.random Examples.clock
              Examples.senderKey [FBinary [x00]] [] (Receiver.ekey_message (JStr "key"))
              (JStr "key") DataError [[x01; x02]; [x03]] Examples.letter
              eq_refl eq_refl eq_refl eq_refl eq_refl)).
Defined.

(** ** How many frames a file costs *)

Lemma split_chunks_length (l : bytes) :
  length (split_chunks l) = chunk_count (length l).
Proof.
  unfold chunk_count. pose proof CHUNK_pos as HC.
  induction l as [|l Hl IH] using chunk_ind.
  - cbn [split_chunks pieces length]. symmetry. apply Nat.div_small. lia.
  - rewrite split_chunks_step by exact Hl. cbn [length]. rewrite IH, length_skipn.
    assert (Hn : 1 <= length l) by (destruct l; [congruence|cbn [length]; lia]).
    replace (length l + CHUNK - 1) with (length l - 1 + 1 * CHUNK) by lia.
    rewrite Nat.div_add by lia.
    destruct (Nat.le_gt_cases CHUNK (length l)) as [Hge|Hlt].
    + replace (length l - CHUNK + CHUNK - 1) with (length l - 1) by lia. lia.
    + replace (length l - CHUNK + CHUNK - 1) with (CHUNK - 1) by lia.
      rewrite !Nat.div_small by lia. reflexivity.
Qed.

Lemma concat_split_length (values : list bytes) :
  length (concat (map split_chunks values))
  = list_sum (map (fun v => chunk_count (length v)) values).
Proof.
  induction values as [|v values IH]; [reflexivity|].
  cbn [map concat]. rewrite length_app, split_chunks_length, IH. reflexivity.
Qed.

(** X7. A completed run of the sender emits two frames for the meta and end
    messages and two frames, a header and a ciphertext, for each chunk; a
    block of [n] bytes delivered by the reader gives [ceil (n / 65536)]
    chunks, so a file delivered as one block costs twice that number of
    frames plus two. *)
Theorem sender_frame_count {W : WebCrypto}
        (jwk_roundtrip : forall pk, importKey_jwk (exportKey_jwk pk) = inr pk)
        (jwk_truthy : forall pk, truthy (Some (exportKey_jwk pk)) = true)
        (random : nat -> byte) (clock : nat -> Q)
        (senderDrawn receiverDrawn : privateKey)
        (reads : list bytes) (file : File) :
  let frames :=
    Sender.sentFrames
      (snd (Session.sender_run random clock senderDrawn receiverDrawn reads file)) in
  length frames = 2 + 2 * list_sum (map (fun v => chunk_count (length v)) reads)
  /\ (reads = [content file] -> length frames = 2 + 2 * chunk_count (size file)).
Proof.
  intros frames.
  destruct (SessionFacts.sender_run_spec jwk_roundtrip jwk_truthy random clock
              senderDrawn receiverDrawn reads file) as (w' & E & Hf & _).
  assert (H : length frames
              = 2 + 2 * list_sum (map (fun v => chunk_count (length v)) reads)).
  { subst frames. rewrite E. cbn [snd]. rewrite Hf. cbn [length].
    rewrite length_app, SenderFacts.chunk_frames_length, concat_split_length.
    cbn [length]. lia. }
  split; [exact H|].
  intros Hr. rewrite H, Hr. cbn [map list_sum fold_right]. unfold size. lia.
Qed.

Lemma sender_frame_count_witness :
  length (Sender.sentFrames
            (snd (Session.sender_run (W := Toy.platform) Examples.random Examples.clock
                    Examples.senderKey Examples.receiverKey [[x01; x02]; [x03]]
                    Examples.letter)))
  = 2 + 2 * list_sum (map (fun v => chunk_count (length v)) [[x01; x02]; [x03]]).
Proof.
  exact (proj1 (@sender_frame_count Toy.platform ToyFacts.import_export
                  ToyFacts.export_truthy Examples.random Examples.clock
                  Examples.senderKey Examples.receiverKey [[x01; x02]; [x03]]
                  Examples.letter)).
Defined.

(** ** What the sender reports while it streams *)

Module ReportFacts.
Import Crypto Sender.
Section ReportFacts.
Context {W : WebCrypto}.
Variable random : nat -> byte.
Variable clock : nat -> Q.

Local Open Scope js_scope.

Lemma throughput_sane (total : nat) (now : Q) (c : counters) (w : world) :
  lastSent c <= sent c -> sent c <= total -> Forall sane (progressLog w) ->
  exists c2 w2,
    throughput total now c w = (Returned c2, w2)
    /\ sent c2 = sent c
    /\ lastSent c2 <= sent c2
    /\ Forall sane (progressLog w2).
Proof.
  intros Hls Hst Hw. unfold throughput.
  destruct (Qle_bool 500 (now - lastTime c)) eqn:E.
  - apply Qle_bool_iff in E.
    assert (Hsec : (0 < (now - lastTime c) / 1000)%Q).
    { apply Qlt_shift_div_l; [reflexivity|]. rewrite Qmult_0_l.
      eapply Qlt_le_trans; [|exact E]. reflexivity. }
    assert (Hspeed : (0 <= inject_Z (Z.of_nat (sent c) - Z.of_nat (lastSent c))
                           / ((now - lastTime c) / 1000))%Q).
    { apply Qle_shift_div_l; [exact Hsec|]. rewrite Qmult_0_l.
      change 0%Q with (inject_Z 0). rewrite <- Zle_Qle. lia. }
    eexists. eexists. split; [reflexivity|].
    cbn [sent lastSent progressLog]. repeat split; [lia|].
    apply Forall_app. split; [exact Hw|]. constructor; [|constructor].
    split; cbn [speed eta]; [exact Hspeed|].
    destruct (Qle_bool _ 0) eqn:E0; cbn [negb]; [exact I|].
    apply Qle_shift_div_l.
    + apply Qnot_le_lt. intros H. apply Qle_bool_iff in H. congruence.
    + rewrite Qmult_0_l. change 0%Q with (inject_Z 0). rewrite <- Zle_Qle. lia.
  - exists c, w. repeat split; assumption.
Qed.

Lemma slice_loop_sane (k : secretKey) (total : nat) (fuel : nat) :
  forall (value : bytes) (offset : nat) (c : counters) (w : world),
    length value - offset <= fuel ->
    lastSent c <= sent c ->
    sent c + length (skipn offset value) <= total ->
    Forall sane (progressLog w) ->
    exists c' w',
      slice_loop random clock fuel k total value offset c w = (Returned c', w')
      /\ sent c' = sent c + length (skipn offset value)
      /\ lastSent c' <= sent c'
      /\ Forall sane (progressLog w').
Proof.
  induction fuel as [|fuel IH]; intros value offset c w Hfuel Hls Hst Hw.
  - assert (Hge : length value <= offset) by lia.
    exists c, w. rewrite (skipn_all2 value Hge).
    cbn [slice_loop]. apply Nat.ltb_ge in Hge as ->.
    cbn [length]. rewrite Nat.add_0_r. repeat split; assumption.
  - destruct (Nat.le_gt_cases (length value) offset) as [Hge|Hlt].
    + exists c, w. rewrite (skipn_all2 value Hge).
      cbn [slice_loop]. apply Nat.ltb_ge in Hge as ->.
      cbn [length]. rewrite Nat.add_0_r. repeat split; assumption.
    + rewrite SenderFacts.slice_loop_turn by exact Hlt. cbv zeta.
      set (slice := firstn CHUNK (skipn offset value)) in *.
      assert (Hsplit : length (skipn offset value)
                       = length slice + length (skipn (offset + length slice) value)).
      { subst slice. rewrite skipn_past_slice.
        rewrite <- (firstn_skipn CHUNK (skipn offset value)) at 1.
        now rewrite length_app. }
      assert (Hslice : 1 <= length slice).
      { subst slice. rewrite length_firstn, length_skipn.
        pose proof CHUNK_pos. lia. }
      match goal with
      | |- context [bind (throughput ?t ?n ?c1) _ ?w1] =>
          destruct (@throughput_sane t n c1 w1)
            as (c2 & w2 & E & Hsent & Hls2 & Hw2);
            [cbn [sent lastSent]; lia|cbn [sent]; lia|exact Hw|]
      end.
      unfold bind at 1. rewrite E. cbn [sent] in Hsent.
      destruct (IH value (offset + length slice) c2 w2)
        as (c' & w' & E' & Hc' & Hls' & Hw'); try assumption.
      * rewrite length_skipn in Hsplit. lia.
      * lia.
      * exists c', w'. repeat split; [exact E'|lia|exact Hls'|exact Hw'].
Qed.

Lemma read_loop_sane (k : secretKey) (total : nat) (values : list bytes) :
  forall (c : counters) (w : world),
    lastSent c <= sent c ->
    sent c + length (concat values) <= total ->
    Forall sane (progressLog w) ->
    exists c' w',
      read_loop random clock k total values c w = (Returned c', w')
      /\ Forall sane (progressLog w').
Proof.
  induction values as [|value later IH]; intros c w Hls Hst Hw.
  - exists c, w. split; [reflexivity|exact Hw].
  - cbn [read_loop]. cbn [concat] in Hst. rewrite length_app in Hst.
    destruct (@slice_loop_sane k total (length value) value 0 c w)
      as (c1 & w1 & E1 & Hc1 & Hls1 & Hw1); try assumption; [lia|cbn [skipn]; lia|].
    cbn [skipn] in Hc1.
    unfold bind at 1. rewrite E1.
    apply IH; [exact Hls1|lia|exact Hw1].
Qed.

Lemma throughput_quiet (total : nat) (now : Q) (c : counters) (w : world) :
  (now - lastTime c < 500)%Q -> throughput total now c w = (Returned c, w).
Proof.
  intros H. unfold throughput.
  destruct (Qle_bool 500 (now - lastTime c)) eqn:E; [|reflexivity].
  apply Qle_bool_iff in E. exfalso. exact (Qlt_not_le _ _ H E).
Qed.

Lemma slice_loop_quiet (k : secretKey) (total : nat) (t0 : Q) (fuel : nat) :
  (forall i, clock i - t0 < 500)%Q ->
  forall (value : bytes) (offset : nat) (c : counters) (w : world),
    length value - offset <= fuel ->
    lastTime c = t0 ->
    exists c' w',
      slice_loop random clock fuel k total value offset c w = (Returned c', w')
      /\ lastTime c' = t0
      /\ progressLog w' = progressLog w.
Proof.
  intros Hclock.
  induction fuel as [|fuel IH]; intros value offset c w Hfuel Ht.
  - assert (Hge : length value <= offset) by lia.
    exists c, w. cbn [slice_loop]. apply Nat.ltb_ge in Hge as ->. now repeat split.
  - destruct (Nat.le_gt_cases (length value) offset) as [Hge|Hlt].
    + exists c, w. cbn [slice_loop]. apply Nat.ltb_ge in Hge as ->. now repeat split.
    + rewrite SenderFacts.slice_loop_turn by exact Hlt. cbv zeta.
      set (slice := firstn CHUNK (skipn offset value)) in *.
      assert (Hslice : 1 <= length slice).
      { subst slice. rewrite length_firstn, length_skipn.
        pose proof CHUNK_pos. lia. }
      unfold bind at 1. rewrite throughput_quiet
        by (cbn [lastTime]; rewrite Ht; apply Hclock).
      match goal with
      | |- context [slice_loop _ _ fuel k total value ?o ?c1 ?w1] =>
          destruct (IH value o c1 w1) as (c' & w' & E' & Ht' & Hp');
            [lia|exact Ht|]
      end.
      exists c', w'. repeat split; assumption.
Qed.

Lemma read_loop_quiet (k : secretKey) (total : nat) (t0 : Q) (values : list bytes) :
  (forall i, clock i - t0 < 500)%Q ->
  forall (c : counters) (w : world),
    lastTime c = t0 ->
    exists c' w',
      read_loop random clock k total values c w = (Returned c', w')
      /\ progressLog w' = progressLog w.
Proof.
  intros Hclock.
  induction values as [|value later IH]; intros c w Ht.
  - exists c, w. split; reflexivity.
  - cbn [read_loop].
    destruct (@slice_loop_quiet k total t0 (length value) Hclock value 0 c w)
      as (c1 & w1 & E1 & Ht1 & Hp1); [lia|exact Ht|].
    unfold bind at 1. rewrite E1.
    destruct (IH c1 w1 Ht1) as (c' & w' & E' & Hp').
    exists c', w'. split; [exact E'|]. now rewrite Hp', Hp1.
Qed.

(** The sender's run from the moment the peer's key is in hand. *)
Lemma sendFileInChunks_reports (drawn : privateKey) (inbox : list frame)
      (reads : list bytes) (file : File) (peerPubJwk : json) (peerPubKey : publicKey) :
  (forall w, waitForPeerPubKey inbox w = (Returned peerPubJwk, w)) ->
  importKey_jwk peerPubJwk = inr peerPubKey ->
  forall c' w',
    read_loop random clock (deriveAesKey drawn peerPubKey) (size file) reads
              {| sent := 0; lastTime := clock 0; lastSent := 0 |}
              {| randomPos := 0; clockPos := 1;
                 sentFrames := [text (meta_message file (exportPubKeyJwk (public_of drawn)))];
                 progressLog := [];
                 statusLog := [StHashing; StWaitingKey; StSending] |}
    = (Returned c', w') ->
    progressLog (snd (sendFileInChunks random clock drawn inbox reads file start))
    = progressLog w' ++ [{| progress := 100%Q; speed := 0%Q; eta := Some 0%Q |}].
Proof.
  intros Hwait Himport c' w' E.
  unfold sendFileInChunks. cbv zeta.
  erewrite SenderFacts.bind_returned by reflexivity.
  erewrite SenderFacts.bind_returned by reflexivity.
  erewrite SenderFacts.bind_returned by reflexivity.
  erewrite SenderFacts.bind_returned by apply Hwait.
  erewrite SenderFacts.bind_returned
    by (unfold await, importPubKeyJwk; rewrite Himport; reflexivity).
  erewrite SenderFacts.bind_returned by reflexivity.
  erewrite SenderFacts.bind_returned by reflexivity.
  erewrite SenderFacts.bind_returned by exact E.
  reflexivity.
Qed.

End ReportFacts.
End ReportFacts.

(** X8. In a session every throughput report of the sender carries a speed
    that is not negative and an estimated time left that is either absent or
    not negative, whatever the clock reads. *)
Theorem sender_reports_are_sane {W : WebCrypto}
        (jwk_roundtrip : forall pk, importKey_jwk (exportKey_jwk pk) = inr pk)
        (jwk_truthy : forall pk, truthy (Some (exportKey_jwk pk)) = true)
        (random : nat -> byte) (clock : nat -> Q)
        (senderDrawn receiverDrawn : privateKey)
        (reads : list bytes) (file : File) :
  concat reads = content file ->
  Forall sane
         (Sender.progressLog
            (snd (Session.sender_run random clock senderDrawn receiverDrawn reads file))).
Proof.
  intros Hreads. unfold Session.sender_run.
  rewrite (SessionFacts.reply_is_ekey jwk_roundtrip).
  match goal with
  | |- context [Sender.sendFileInChunks _ _ ?d ?inbox ?rs ?f Sender.start] =>
      pose proof (@ReportFacts.sendFileInChunks_reports W random clock d inbox rs f
                    (Crypto.exportPubKeyJwk (public_of receiverDrawn))
                    (public_of receiverDrawn)
                    (SessionFacts.wait_gets_ekey jwk_truthy receiverDrawn)
                    (jwk_roundtrip _)) as Hrun
  end.
  match type of Hrun with
  | forall c' w', Sender.read_loop _ _ ?k ?t ?vs ?c ?w = _ -> _ =>
      destruct (@ReportFacts.read_loop_sane W random clock k t vs c w)
        as (c' & w' & E & Hsane)
  end.
  - cbn [Sender.sent Sender.lastSent]. lia.
  - cbn [Sender.sent]. rewrite Hreads. unfold size. lia.
  - constructor.
  - rewrite (Hrun c' w' E). apply Forall_app. split; [exact Hsane|].
    constructor; [|constructor]. split; cbn [speed eta]; apply Qle_refl.
Qed.

Lemma sender_reports_are_sane_witness :
  Forall sane
         (Sender.progressLog
            (snd (Session.sender_run (W := Toy.platform) Examples.random Examples.clock
                    Examples.senderKey Examples.receiverKey [[x01; x02]; [x03]]
                    Examples.letter))).
Proof.
  exact (@sender_reports_are_sane Toy.platform ToyFacts.import_export
           ToyFacts.export_truthy Examples.random Examples.clock
           Examples.senderKey Examples.receiverKey [[x01; x02]; [x03]]
           Examples.letter eq_refl).
Defined.

(** X9. When the clock never reads more than 499 ms past its first reading,
    the one taken when streaming starts, the sender reports no throughput
    while it streams: its only report is the final one, with progress 100,
    speed 0 and no time left. The bound leaves a margin of one millisecond:
    499 being a double, the rounded difference of two readings that are at
    most 499 apart is at most 499 too, and stays below the 500 of the
    guard. *)
Theorem quick_transfer_reports_once {W : WebCrypto}
        (jwk_roundtrip : forall pk, importKey_jwk (exportKey_jwk pk) = inr pk)
        (jwk_truthy : forall pk, truthy (Some (exportKey_jwk pk)) = true)
        (random : nat -> byte) (clock : nat -> Q)
        (senderDrawn receiverDrawn : privateKey)
        (reads : list bytes) (file : File) :
  (forall i, clock i - clock 0%nat <= 499)%Q ->
  Sender.progressLog
    (snd (Session.sender_run random clock senderDrawn receiverDrawn reads file))
  = [{| progress := 100%Q; speed := 0%Q; eta := Some 0%Q |}].
Proof.
  intros Hmargin.
  assert (Hclock : forall i, (clock i - clock 0%nat < 500)%Q).
  { intros i. eapply Qle_lt_trans; [apply Hmargin|reflexivity]. }
  unfold Session.sender_run.
  rewrite (SessionFacts.reply_is_ekey jwk_roundtrip).
  match goal with
  | |- context [Sender.sendFileInChunks _ _ ?d ?inbox ?rs ?f Sender.start] =>
      pose proof (@ReportFacts.sendFileInChunks_reports W random clock d inbox rs f
                    (Crypto.exportPubKeyJwk (public_of receiverDrawn))
                    (public_of receiverDrawn)
                    (SessionFacts.wait_gets_ekey jwk_truthy receiverDrawn)
                    (jwk_roundtrip _)) as Hrun
  end.
  match type of Hrun with
  | forall c' w', Sender.read_loop _ _ ?k ?t ?vs ?c ?w = _ -> _ =>
      destruct (@ReportFacts.read_loop_quiet W random clock k t (clock 0) vs Hclock c w
                  eq_refl)
        as (c' & w' & E & Hquiet)
  end.
  rewrite (Hrun c' w' E), Hquiet. reflexivity.
Qed.

Lemma quick_transfer_reports_once_witness :
  Sender.progressLog
    (snd (Session.sender_run (W := Toy.platform) Examples.random (fun _ => 0%Q)
            Examples.senderKey Examples.receiverKey [[x01; x02]; [x03]]
            Examples.letter))
  = [{| progress := 100%Q; speed := 0%Q; eta := Some 0%Q |}].
Proof.
  refine (@quick_transfer_reports_once Toy.platform ToyFacts.import_export
            ToyFacts.export_truthy Examples.random (fun _ => 0%Q)
            Examples.senderKey Examples.receiverKey [[x01; x02]; [x03]]
            Examples.letter _).
  intros i. discriminate.
Defined.

(** ** The receiver on arbitrary frames *)

Lemma onmessage_unknown {W : WebCrypto} (r : Receiver.state) (parsed : option json) :
  (forall msg, parsed = Some msg ->
               has_type msg "meta" = false /\ has_type msg "chunk" = false
               /\ has_type msg "end" = false) ->
  Receiver.onmessage (FText parsed) r = (Returned tt, r).
Proof.
  intros H. destruct parsed as [msg|]; [|reflexivity].
  destruct (H msg eq_refl) as (Hm & Hc & He).
  unfold Receiver.onmessage. rewrite Hm, Hc, He.
  now destruct (negb (truthy (Some msg))).
Qed.

(** X10. Text frames that do not parse, that parse to something other than
    an object with a [type], or whose type is none of "meta", "chunk" and
    "end" (an "ekey" message for instance) are ignored by the receiver: a
    whole sequence of them raises nothing and leaves every variable and
    everything reported as it was. *)
Theorem unknown_text_frames_are_ignored {W : WebCrypto}
        (r : Receiver.state) (frames : list frame) :
  Forall (fun f => exists parsed,
                     f = FText parsed
                     /\ forall msg, parsed = Some msg ->
                                    has_type msg "meta" = false
                                    /\ has_type msg "chunk" = false
                                    /\ has_type msg "end" = false) frames ->
  Receiver.deliver frames r = r
  /\ Forall (fun f => Receiver.onmessage f r = (Returned tt, r)) frames.
Proof.
  induction 1 as [|f frames (parsed & -> & Hp) _ [IH1 IH2]].
  - split; [reflexivity|constructor].
  - pose proof (onmessage_unknown r Hp) as E. split.
    + cbn [Receiver.deliver]. now rewrite E.
    + constructor; assumption.
Qed.

Lemma unknown_text_frames_are_ignored_witness :
  Receiver.deliver
    [FText None; FText (Some (JNum 7));
     text (Receiver.ekey_message Examples.senderJwk)] Examples.awaiting_body
  = Examples.awaiting_body.
Proof.
  refine (proj1 (@unknown_text_frames_are_ignored Toy.platform Examples.awaiting_body
                   [FText None; FText (Some (JNum 7));
                    text (Receiver.ekey_message Examples.senderJwk)] _)).
  repeat constructor; eexists; (split; [reflexivity|]);
    intros msg H; try discriminate H; injection H as <-; repeat split.
Defined.

Lemma onmessage_appends {W : WebCrypto} (r : Receiver.state) (ev : frame) :
  exists more,
    Receiver.chunks (snd (Receiver.onmessage ev r)) = Receiver.chunks r ++ more
    /\ Receiver.receivedBytes (snd (Receiver.onmessage ev r))
       = Receiver.receivedBytes r + length (concat more).
Proof.
  assert (Hsame : forall r', Receiver.chunks r' = Receiver.chunks r ->
                             Receiver.receivedBytes r' = Receiver.receivedBytes r ->
                             exists more,
                               Receiver.chunks r' = Receiver.chunks r ++ more
                               /\ Receiver.receivedBytes r'
                                  = Receiver.receivedBytes r + length (concat more)).
  { intros r' Hc Hb. exists []. rewrite app_nil_r. cbn [concat length]. split; [exact Hc|lia]. }
  destruct ev as [[msg|]|data]; unfold Receiver.onmessage.
  - destruct (negb (truthy (Some msg))); [now apply Hsame|].
    destruct (has_type msg "meta").
    { unfold Receiver.on_meta.
      destruct (Crypto.importPubKeyJwk _); [now apply Hsame|].
      cbn [Receiver.myKeys Receiver.setStatus Receiver.set_meta].
      destruct (Receiver.myKeys r); now apply Hsame. }
    destruct (has_type msg "chunk"); [now apply Hsame|].
    destruct (has_type msg "end"); [|now apply Hsame].
    unfold Receiver.on_end. destruct (truthy _ && negb _)%bool; now apply Hsame.
  - now apply Hsame.
  - unfold Receiver.on_binary.
    destruct (Receiver.pendingChunkInfo r); [|now apply Hsame].
    destruct (Crypto.aesGcmDecrypt _ _ _) as [e|pt]; [now apply Hsame|].
    exists [pt]. cbn [concat]. rewrite app_nil_r.
    cbn [Receiver.meta Receiver.set_pending Receiver.push_chunk].
    destruct (truthy _); split; reflexivity.
Qed.

(** X11. Whatever frames arrive, in whatever order, the receiver only ever
    appends to the plaintext chunks it holds: none is dropped, changed or
    moved, and the byte counter grows by exactly the length of what was
    appended. *)
Theorem chunks_are_append_only {W : WebCrypto}
        (frames : list frame) (r : Receiver.state) :
  exists more,
    Receiver.chunks (Receiver.deliver frames r) = Receiver.chunks r ++ more
    /\ Receiver.receivedBytes (Receiver.deliver frames r)
       = Receiver.receivedBytes r + length (concat more).
Proof.
  revert r. induction frames as [|ev frames IH]; intros r.
  - exists []. rewrite app_nil_r. cbn [Receiver.deliver concat length]. split; [reflexivity|lia].
  - cbn [Receiver.deliver].
    destruct (onmessage_appends r ev) as (m1 & Hc1 & Hb1).
    destruct (IH (snd (Receiver.onmessage ev r))) as (m2 & Hc2 & Hb2).
    exists (m1 ++ m2). rewrite Hc2, Hc1, Hb2, Hb1, concat_app, length_app, <- app_assoc.
    split; [reflexivity|lia].
Qed.


(** X12. From the moment the receiver is bound to the channel, and whatever
    frames arrive, its byte counter is exactly the total length of the chunks
    it holds. *)
Theorem received_bytes_counts_chunks {W : WebCrypto}
        (drawn : privateKey) (frames : list frame) :
  Receiver.receivedBytes (Receiver.deliver frames (Session.receiver0 drawn))
  = length (concat (Receiver.chunks (Receiver.deliver frames (Session.receiver0 drawn)))).
Proof.
  assert (Hinv : forall fs r,
             Receiver.receivedBytes r = length (concat (Receiver.chunks r)) ->
             Receiver.receivedBytes (Receiver.deliver fs r)
             = length (concat (Receiver.chunks (Receiver.deliver fs r)))).
  { induction fs as [|ev fs IH]; intros r Hr; [exact Hr|].
    cbn [Receiver.deliver]. apply IH.
    destruct (onmessage_appends r ev) as (more & Hc & Hb).
    rewrite Hc, Hb, concat_app, length_app. lia. }
  apply Hinv. reflexivity.
Qed.

Lemma onmessage_without_key {W : WebCrypto} (r : Receiver.state) (ev : frame) :
  Receiver.aesKey r = None ->
  (forall msg, ev = text msg -> has_type msg "meta" = true ->
               exists e, Crypto.importPubKeyJwk (prop msg "ecdhPub") = inl e) ->
  Receiver.aesKey (snd (Receiver.onmessage ev r)) = None
  /\ Receiver.chunks (snd (Receiver.onmessage ev r)) = Receiver.chunks r
  /\ Receiver.progressLog (snd (Receiver.onmessage ev r)) = Receiver.progressLog r
  /\ Receiver.sentFrames (snd (Receiver.onmessage ev r)) = Receiver.sentFrames r.
Proof.
  intros Hk Hmeta. destruct ev as [[msg|]|data]; unfold Receiver.onmessage.
  - destruct (negb (truthy (Some msg))); [now repeat split|].
    destruct (has_type msg "meta") eqn:Hm.
    { destruct (Hmeta msg eq_refl Hm) as [e He].
      unfold Receiver.on_meta. rewrite He. now repeat split. }
    destruct (has_type msg "chunk"); [now repeat split|].
    destruct (has_type msg "end"); [|now repeat split].
    unfold Receiver.on_end. destruct (truthy _ && negb _)%bool; now repeat split.
  - now repeat split.
  - unfold Receiver.on_binary.
    destruct (Receiver.pendingChunkInfo r) as [info|]; [|now repeat split].
    unfold Crypto.aesGcmDecrypt. rewrite Hk.
    destruct (new_Uint8Array (prop info "iv")); now repeat split.
Qed.

(** X13. A receiver that has derived no key accumulates nothing: as long as
    no meta message with a public key that imports has arrived, whatever
    chunk headers and binary frames are delivered, no chunk is added, no
    progress is reported and nothing is sent back; a binary frame that meets
    a stashed header only makes the decryption raise. *)
Theorem no_key_no_data {W : WebCrypto} (frames : list frame) (r : Receiver.state) :
  Receiver.aesKey r = None ->
  (forall msg, In (text msg) frames -> has_type msg "meta" = true ->
               exists e, Crypto.importPubKeyJwk (prop msg "ecdhPub") = inl e) ->
  Receiver.aesKey (Receiver.deliver frames r) = None
  /\ Receiver.chunks (Receiver.deliver frames r) = Receiver.chunks r
  /\ Receiver.progressLog (Receiver.deliver frames r) = Receiver.progressLog r
  /\ Receiver.sentFrames (Receiver.deliver frames r) = Receiver.sentFrames r.
Proof.
  revert r. induction frames as [|ev frames IH]; intros r Hk Hmeta.
  - now repeat split.
  - cbn [Receiver.deliver].
    destruct (@onmessage_without_key W r ev Hk) as (Hk1 & Hc1 & Hp1 & Hs1).
    { intros msg -> Hm. apply Hmeta; [now left|exact Hm]. }
    destruct (IH (snd (Receiver.onmessage ev r)) Hk1) as (Hk2 & Hc2 & Hp2 & Hs2).
    { intros msg Hin Hm. apply Hmeta; [now right|exact Hm]. }
    rewrite Hk2, Hc2, Hp2, Hs2, Hc1, Hp1, Hs1. now repeat split.
Qed.

Lemma no_key_no_data_witness :
  Receiver.chunks
    (Receiver.deliver
       [text Examples.header1; FBinary (Toy.seal Examples.key Examples.iv1 [x01; x02]);
        text (JObj [("type", JStr "meta"); ("size", JNum 2)])] Examples.receiver0)
  = Receiver.chunks Examples.receiver0.
Proof.
  refine (proj1 (proj2 (@no_key_no_data Toy.platform
                   [text Examples.header1;
                    FBinary (Toy.seal Examples.key Examples.iv1 [x01; x02]);
                    text (JObj [("type", JStr "meta"); ("size", JNum 2)])]
                   Examples.receiver0 eq_refl _))).
  intros msg [H|[H|[H|[]]]] Hm; try discriminate H; injection H as <-;
    [discriminate Hm|exists DataError; reflexivity].
Defined.

Lemma onmessage_replies {W : WebCrypto} (drawn : privateKey)
      (r : Receiver.state) (ev : frame) :
  Receiver.myKeys r = Some (Crypto.generateECDH drawn) ->
  Receiver.myKeys (snd (Receiver.onmessage ev r)) = Some (Crypto.generateECDH drawn)
  /\ (Receiver.sentFrames (snd (Receiver.onmessage ev r)) = Receiver.sentFrames r
      \/ Receiver.sentFrames (snd (Receiver.onmessage ev r))
         = Receiver.sentFrames r
             ++ [text (Receiver.ekey_message (Crypto.exportPubKeyJwk (public_of drawn)))]).
Proof.
  intros Hk. destruct ev as [[msg|]|data]; unfold Receiver.onmessage.
  - destruct (negb (truthy (Some msg))); [now split; [|left]|].
    destruct (has_type msg "meta").
    { unfold Receiver.on_meta.
      destruct (Crypto.importPubKeyJwk _); [now split; [|left]|].
      cbn [Receiver.myKeys Receiver.setStatus Receiver.set_meta]. rewrite Hk.
      split; [exact Hk|right; reflexivity]. }
    destruct (has_type msg "chunk"); [now split; [|left]|].
    destruct (has_type msg "end"); [|now split; [|left]].
    unfold Receiver.on_end. destruct (truthy _ && negb _)%bool; now split; [|left].
  - now split; [|left].
  - unfold Receiver.on_binary.
    destruct (Receiver.pendingChunkInfo r); [|now split; [|left]].
    destruct (Crypto.aesGcmDecrypt _ _ _); [now split; [|left]|].
    cbn [Receiver.meta Receiver.set_pending Receiver.push_chunk].
    destruct (truthy _); now split; [|left].
Qed.

(** X14. Whatever frames arrive, the only frames a bound receiver ever sends
    are ekey messages carrying its own exported public key, at most one for
    each frame received: no plaintext, no chunk and no key other than its own
    ever leaves the receiver. *)
Theorem receiver_sends_only_its_key {W : WebCrypto}
        (drawn : privateKey) (frames : list frame) :
  let sent := Receiver.sentFrames (Receiver.deliver frames (Session.receiver0 drawn)) in
  Forall (fun f => f = text (Receiver.ekey_message
                               (Crypto.exportPubKeyJwk (public_of drawn)))) sent
  /\ length sent <= length frames.
Proof.
  assert (Hinv : forall fs r,
             Receiver.myKeys r = Some (Crypto.generateECDH drawn) ->
             exists more,
               Receiver.sentFrames (Receiver.deliver fs r) = Receiver.sentFrames r ++ more
               /\ Forall (fun f => f = text (Receiver.ekey_message
                                               (Crypto.exportPubKeyJwk (public_of drawn))))
                         more
               /\ length more <= length fs).
  { induction fs as [|ev fs IH]; intros r Hk.
    - exists []. rewrite app_nil_r. repeat split; constructor.
    - cbn [Receiver.deliver].
      destruct (@onmessage_replies W drawn r ev Hk) as [Hk1 Hs1].
      destruct (IH _ Hk1) as (more & Hs & Hall & Hlen).
      destruct Hs1 as [Hs1|Hs1]; rewrite Hs, Hs1.
      + exists more. repeat split; [exact Hall|cbn [length]; lia].
      + eexists. rewrite <- app_assoc. split; [reflexivity|].
        split; [constructor; [reflexivity|exact Hall]|cbn [length app]; lia]. }
  intros sent. destruct (Hinv frames (Session.receiver0 drawn) eq_refl)
    as (more & Hs & Hall & Hlen).
  subst sent. rewrite Hs. cbn [Session.receiver0 Receiver.bind_dc Receiver.sentFrames
    Receiver.set_myKeys Receiver.setStatus Receiver.useReceiver app].
  split; assumption.
Qed.

(** X15. A header stays pending until a decryption made under it has
    settled. Binary frames that arrive before that are all decrypted under
    that header, and each one that authenticates is appended: one header
    admits two bodies. The call that settles clears the pending header,
    whichever it is by then, also a newer one whose body has not arrived: a
    binary frame that arrives after that is dropped. The initialisation
    vector of the header is an array of byte values, as [Array.from] writes
    it. *)
Theorem header_serves_until_a_decryption_settles {W : WebCrypto}
        (m : Async.machine) (info : json) (k : secretKey) (iv data data' pt pt' : bytes) :
  Receiver.pendingChunkInfo (Async.vars m) = Some info ->
  Receiver.aesKey (Async.vars m) = Some k ->
  prop info "iv" = Some (Array_from iv) ->
  decrypt k iv data = Some pt ->
  decrypt k iv data' = Some pt' ->
  let n := length (Async.inFlight m) in
  Receiver.chunks
    (Async.vars
       (Async.run [Async.Arrive (FBinary data); Async.Arrive (FBinary data');
                   Async.Settle n; Async.Settle n] m))
  = Receiver.chunks (Async.vars m) ++ [pt; pt']
  /\ (let settled := Async.run [Async.Arrive (FBinary data); Async.Settle n] m in
      Receiver.chunks (Async.vars settled) = Receiver.chunks (Async.vars m) ++ [pt]
      /\ Receiver.pendingChunkInfo (Async.vars settled) = None
      /\ Async.arrive (FBinary data') settled = settled)
  /\ (forall msg,
        has_type msg "chunk" = true ->
        let wiped :=
          Async.run [Async.Arrive (FBinary data); Async.Arrive (text msg);
                     Async.Settle n] m in
        Receiver.chunks (Async.vars wiped) = Receiver.chunks (Async.vars m) ++ [pt]
        /\ Receiver.pendingChunkInfo (Async.vars wiped) = None
        /\ Async.arrive (FBinary data') wiped = wiped).
Proof.
  intros Hp Hk Hiv Hd Hd' n.
  assert (E1 : Async.arrive (FBinary data) m
               = {| Async.vars := Async.vars m;
                    Async.inFlight := Async.inFlight m ++ [Async.Decrypting (inr pt)] |}).
  { rewrite (AsyncFacts.arrive_body m data Hp Hk Hiv), Hd. reflexivity. }
  assert (E2 : forall r rest,
             Async.settle n {| Async.vars := r;
                               Async.inFlight := Async.inFlight m
                                                 ++ Async.Decrypting (inr pt) :: rest |}
             = {| Async.vars := after_body pt r;
                  Async.inFlight := Async.inFlight m ++ rest |}).
  { intros r rest. subst n. now rewrite AsyncFacts.settle_middle, AsyncFacts.resume_decrypted. }
  unfold Async.run. cbn [fold_left Async.step]. rewrite E1.
  split; [|split].
  - rewrite (@AsyncFacts.arrive_body W _ info k iv data') by assumption.
    rewrite Hd'. unfold Async.suspend. cbn [Async.vars Async.inFlight].
    rewrite <- app_assoc. cbn [app]. rewrite E2.
    subst n. rewrite AsyncFacts.settle_middle, AsyncFacts.resume_decrypted. cbn [Async.finish Async.vars].
    destruct (ReceiverFacts.after_body_fields pt' (after_body pt (Async.vars m)))
      as (Hc & _).
    destruct (ReceiverFacts.after_body_fields pt (Async.vars m)) as (Hc1 & _).
    now rewrite Hc, Hc1, <- app_assoc.
  - rewrite E2. cbn [Async.vars].
    destruct (ReceiverFacts.after_body_fields pt (Async.vars m)) as (Hc1 & _ & Hn & _).
    split; [exact Hc1|]. split; [exact Hn|].
    unfold Async.arrive. cbv zeta. cbn [Async.vars]. now rewrite Hn.
  - intros msg Hmsg. rewrite (AsyncFacts.arrive_header _ _ Hmsg).
    unfold Async.finish. cbn [Async.vars Async.inFlight]. rewrite E2. cbn [Async.vars].
    destruct (ReceiverFacts.after_body_fields pt
                (Receiver.set_pending (Some msg) (prop msg "len") (Async.vars m)))
      as (Hc1 & _ & Hn & _).
    split; [exact Hc1|]. split; [exact Hn|].
    unfold Async.arrive. cbv zeta. cbn [Async.vars]. now rewrite Hn.
Qed.

Lemma header_serves_until_a_decryption_settles_witness :
  Receiver.chunks
    (Async.vars
       (Async.run
          [Async.Arrive (FBinary (Toy.seal Examples.key Examples.iv1 [x01; x02]));
           Async.Arrive (FBinary (Toy.seal Examples.key Examples.iv1 [x03]));
           Async.Settle 0; Async.Settle 0]
          (Async.boot Examples.awaiting_body)))
  = Receiver.chunks Examples.awaiting_body ++ [[x01; x02]; [x03]].
Proof.
  exact (proj1 (@header_serves_until_a_decryption_settles Toy.platform
                  (Async.boot Examples.awaiting_body) Examples.header1 Examples.key
                  Examples.iv1 (Toy.seal Examples.key Examples.iv1 [x01; x02])
                  (Toy.seal Examples.key Examples.iv1 [x03]) [x01; x02] [x03]
                  eq_refl eq_refl eq_refl eq_refl eq_refl)).
Defined.

(** X16. [end] decides on the digest of the chunks pushed when it arrives:
    the blob is made at once, before anything is awaited. With the calls in
    flight left as they are, the blob is exposed for download when its digest
    is the recorded hash, and the integrity failure is reported, nothing
    being exposed, when the recorded hash is another non-empty string. A
    chunk whose decryption is in flight when [end] arrives is not part of the
    blob, even when it is pushed before the digest settles: the verdict is
    that of the blob without it. *)
Theorem end_decides_on_what_was_pushed {W : WebCrypto} (m : Async.machine) (h : string) :
  opt_prop (Receiver.meta (Async.vars m)) "hash" = Some (JStr h) ->
  let n := length (Async.inFlight m) in
  let blob := concat (Receiver.chunks (Async.vars m)) in
  (let after :=
     Async.run [Async.Arrive (text Sender.end_message); Async.Settle n; Async.Settle n] m in
   Async.inFlight after = Async.inFlight m
   /\ (h = Crypto.sha256 blob ->
       Async.vars after
       = Receiver.setStatus StReceived (Receiver.setDownloadUrl blob (Async.vars m)))
   /\ (h <> Crypto.sha256 blob -> h <> "" ->
       Async.vars after = Receiver.setStatus StIntegrityFailed (Async.vars m)))
  /\ (forall pt others,
        Async.inFlight m = Async.Decrypting (inr pt) :: others ->
        let late :=
          Async.run [Async.Arrive (text Sender.end_message); Async.Settle 0;
                     Async.Settle (n - 1); Async.Settle (n - 1)] m in
        Receiver.chunks (Async.vars late) = Receiver.chunks (Async.vars m) ++ [pt]
        /\ (h = Crypto.sha256 blob ->
            Receiver.downloads (Async.vars late)
            = Receiver.downloads (Async.vars m) ++ [blob])
        /\ (h <> Crypto.sha256 blob -> h <> "" ->
            Receiver.downloads (Async.vars late) = Receiver.downloads (Async.vars m)
            /\ Receiver.statusLog (Async.vars late)
               = Receiver.statusLog (Async.vars m) ++ [StIntegrityFailed])).
Proof.
  intros Hh n blob.
  assert (Hverdict : forall r others,
             Receiver.meta r = Receiver.meta (Async.vars m) ->
             Async.resume (Async.Digesting blob (Crypto.sha256 blob)) r others
             = Async.finish
                 (if String.eqb h "" || String.eqb h (Crypto.sha256 blob)
                  then Receiver.setStatus StReceived (Receiver.setDownloadUrl blob r)
                  else Receiver.setStatus StIntegrityFailed r)
                 others).
  { intros r others Hr. unfold Async.resume. rewrite Hr, Hh.
    cbn [truthy strict_eq_string].
    destruct (String.eqb h ""), (String.eqb h (Crypto.sha256 blob)); reflexivity. }
  unfold Async.run. cbn [fold_left Async.step].
  change (Async.arrive (text Sender.end_message) m)
    with {| Async.vars := Async.vars m;
            Async.inFlight := Async.inFlight m ++ [Async.ReadingBlob blob] |}.
  split.
  - subst n. change {| Async.vars := ?r; Async.inFlight := ?l ++ [?s] |}
      with (Async.suspend s r l).
    rewrite AsyncFacts.settle_last. cbn [Async.resume].
    rewrite AsyncFacts.settle_last, Hverdict by reflexivity.
    cbn [Async.finish Async.vars Async.inFlight].
    split; [reflexivity|]. split.
    + intros ->. now rewrite String.eqb_refl, orb_true_r.
    + intros Hne Hnz. apply String.eqb_neq in Hne, Hnz. now rewrite Hne, Hnz.
  - intros pt others Hfl. subst n. rewrite Hfl.
    cbn [length Nat.sub app]. rewrite Nat.sub_0_r.
    change (Async.settle 0 ?x)
      with (Async.resume (Async.Decrypting (inr pt)) (Async.vars m)
                         (others ++ [Async.ReadingBlob blob])).
    rewrite AsyncFacts.resume_decrypted.
    change (Async.finish ?r (?l ++ [?s])) with (Async.suspend s r l).
    rewrite AsyncFacts.settle_last. cbn [Async.resume].
    destruct (ReceiverFacts.after_body_fields pt (Async.vars m))
      as (Hc & _ & _ & Hm & _ & Hdl & Hst).
    rewrite AsyncFacts.settle_last, Hverdict by exact Hm.
    cbn [Async.finish Async.vars].
    split; [|split].
    + destruct (_ || _)%bool;
        cbn [Receiver.chunks Receiver.setStatus Receiver.setDownloadUrl]; exact Hc.
    + intros ->. rewrite String.eqb_refl, orb_true_r.
      cbn [Receiver.downloads Receiver.setStatus Receiver.setDownloadUrl].
      now rewrite Hdl.
    + intros Hne Hnz. apply String.eqb_neq in Hne, Hnz. rewrite Hne, Hnz.
      cbn [orb Receiver.downloads Receiver.statusLog Receiver.setStatus].
      now rewrite Hdl, Hst.
Qed.

Lemma end_decides_on_what_was_pushed_witness :
  Receiver.downloads
    (Async.vars
       (Async.run
          [Async.Arrive (text Sender.end_message); Async.Settle 0; Async.Settle 0;
           Async.Settle 0]
          {| Async.vars := Receiver.deliver [text Examples.header_whole] Examples.ready;
             Async.inFlight := [Async.Decrypting (W := Toy.platform)
                                  (inr (content Examples.letter))] |}))
  = [].
Proof.
  refine (proj1 (proj2 (proj2 (proj2
    (@end_decides_on_what_was_pushed Toy.platform
       {| Async.vars := Receiver.deliver [text Examples.header_whole] Examples.ready;
          Async.inFlight := [Async.Decrypting (W := Toy.platform)
                               (inr (content Examples.letter))] |}
       (Crypto.sha256 (W := Toy.platform) (content Examples.letter)) eq_refl)
    (content Examples.letter) [] eq_refl)) _ _)).
  - intros H. vm_compute in H. discriminate H.
  - intros H. vm_compute in H. discriminate H.
Defined.



(** ** src/components/ProgressBar.jsx *)

Lemma pct_in_range (q : Q) :
  (0 <= q)%Q -> (q <= 100)%Q -> (ProgressBar.pct (Some q) == q)%Q.
Proof.
  intros H0 H100. unfold ProgressBar.pct.
  rewrite (Q.max_r 0 q H0). apply Q.min_r. exact H100.
Qed.

(** X18. The width the progress bar shows is always between 0 and 100: a
    progress between 0 and 100 is shown as it is, one below 0 as 0, one above
    100 as 100, and a missing one as 0. *)
Theorem progress_bar_clamps (progress : option Q) (q : Q) :
  ((0 <= ProgressBar.pct progress)%Q /\ (ProgressBar.pct progress <= 100)%Q)
  /\ ((0 <= q)%Q -> (q <= 100)%Q -> (ProgressBar.pct (Some q) == q)%Q)
  /\ ((q <= 0)%Q -> (ProgressBar.pct (Some q) == 0)%Q)
  /\ ((100 <= q)%Q -> (ProgressBar.pct (Some q) == 100)%Q)
  /\ (ProgressBar.pct None == 0)%Q.
Proof.
  split; [|split; [|split; [|split]]].
  - unfold ProgressBar.pct. split.
    + apply Q.min_glb; [discriminate|apply Q.le_max_l].
    + apply Q.le_min_l.
  - apply pct_in_range.
  - intros H. unfold ProgressBar.pct. rewrite (Q.max_l 0 q H). reflexivity.
  - intros H. unfold ProgressBar.pct.
    rewrite (Q.max_r 0 q) by (eapply Qle_trans; [|exact H]; discriminate).
    apply Q.min_l. exact H.
  - reflexivity.
Qed.

Lemma progress_bar_clamps_witness :
  (ProgressBar.pct (Some (250 # 1)) == 100)%Q.
Proof.
  refine (proj1 (proj2 (proj2 (proj2 (progress_bar_clamps None (250 # 1))))) _).
  discriminate.
Defined.

Lemma climbs_shown (total lo hi : nat) (l : list Q) :
  climbs total lo hi l -> hi <= total ->
  Forall (fun q => ProgressBar.pct (Some q) == q)%Q l.
Proof.
  intros Hc Hhi.
  pose proof (climbs_above Hc) as Ha. pose proof (climbs_bounded Hc Hhi) as Hb.
  rewrite Forall_forall in *. intros q Hq. apply pct_in_range; [|now apply Hb].
  eapply Qle_trans; [|apply Ha, Hq].
  unfold pct, Qdiv, nat_to_Q.
  apply Qmult_le_0_compat; [|discriminate].
  apply Qmult_le_0_compat.
  - change 0%Q with (inject_Z 0). rewrite <- Zle_Qle. lia.
  - apply Qinv_le_0_compat. change 0%Q with (inject_Z 0). rewrite <- Zle_Qle. lia.
Qed.



(** ** The handshake and the books at the end of a session *)

(** X21. The handshake takes two messages: to the sender's meta frame the
    receiver answers with exactly one frame, the ekey message carrying its
    own exported public key, and the key it derives from the sender's public
    key is the key the sender derives from that answer, provided a key
    exported as JWK imports back and both sides of the key agreement obtain
    the same bits. *)
Theorem handshake_agrees {W : WebCrypto}
        (jwk_roundtrip : forall pk, importKey_jwk (exportKey_jwk pk) = inr pk)
        (jwk_truthy : forall pk, truthy (Some (exportKey_jwk pk)) = true)
        (ecdh_agree : forall a b, deriveBits a (public_of b) = deriveBits b (public_of a))
        (random : nat -> byte) (clock : nat -> Q)
        (senderDrawn receiverDrawn : privateKey)
        (reads : list bytes) (file : File) :
  let answer := Session.reply random clock senderDrawn receiverDrawn reads file in
  answer = [text (Receiver.ekey_message (Crypto.exportPubKeyJwk (public_of receiverDrawn)))]
  /\ (forall w, exists peerPubJwk peerPubKey,
         Sender.waitForPeerPubKey answer w = (Returned peerPubJwk, w)
         /\ Crypto.importPubKeyJwk (Some peerPubJwk) = inr peerPubKey
         /\ Receiver.aesKey
              (Receiver.deliver
                 (Session.first_flight random clock senderDrawn reads file)
                 (Session.receiver0 receiverDrawn))
            = Some (Crypto.deriveAesKey senderDrawn peerPubKey)).
Proof.
  intros answer.
  assert (Ha : answer = [text (Receiver.ekey_message
                                 (Crypto.exportPubKeyJwk (public_of receiverDrawn)))]).
  { apply SessionFacts.reply_is_ekey. exact jwk_roundtrip. }
  split; [exact Ha|].
  intros w. exists (Crypto.exportPubKeyJwk (public_of receiverDrawn)), (public_of receiverDrawn).
  rewrite Ha. split; [apply SessionFacts.wait_gets_ekey; exact jwk_truthy|].
  split; [apply jwk_roundtrip|].
  rewrite SessionFacts.first_flight_is_meta.
  rewrite (SessionFacts.receiver_after_meta jwk_roundtrip).
  cbn [Receiver.aesKey Receiver.dc_send Receiver.set_aesKey].
  now rewrite (SessionFacts.same_key ecdh_agree).
Qed.

Lemma handshake_agrees_witness :
  Session.reply (W := Toy.platform) Examples.random Examples.clock Examples.senderKey
    Examples.receiverKey [[x01; x02]; [x03]] Examples.letter
  = [text (Receiver.ekey_message
             (Crypto.exportPubKeyJwk (W := Toy.platform)
                (@public_of Toy.platform Examples.receiverKey)))].
Proof.
  exact (proj1 (@handshake_agrees Toy.platform ToyFacts.import_export
                  ToyFacts.export_truthy ToyFacts.agree Examples.random Examples.clock
                  Examples.senderKey Examples.receiverKey [[x01; x02]; [x03]]
                  Examples.letter)).
Defined.

(** X22. When everything a call of the receiver's handler awaits has settled
    before the next frame arrives, the books agree at the end of a session:
    every frame of the sender has arrived, no call is in flight, the receiver
    holds the chunks the sender cut, in the same order, its byte counter is
    the size of the file, no header is left pending, the blob it exposes is
    the content, the sender was told hashing, waiting for the key, sending
    and completion in that order, and the receiver was told waiting for
    metadata, receiving the named file and completion. *)
Theorem paced_session_books_agree {W : WebCrypto}
        (jwk_roundtrip : forall pk, importKey_jwk (exportKey_jwk pk) = inr pk)
        (jwk_truthy : forall pk, truthy (Some (exportKey_jwk pk)) = true)
        (ecdh_agree : forall a b, deriveBits a (public_of b) = deriveBits b (public_of a))
        (gcm_roundtrip : forall k iv pt, decrypt k iv (encrypt k iv pt) = Some pt)
        (random : nat -> byte) (clock : nat -> Q)
        (senderDrawn receiverDrawn : privateKey)
        (reads : list bytes) (file : File) :
  concat reads = content file ->
  let sender := Session.sender_run random clock senderDrawn receiverDrawn reads file in
  let paced := Async.serial (Sender.sentFrames (snd sender)) in
  let m := Async.run paced (Async.boot (Session.receiver0 receiverDrawn)) in
  Async.arrivals paced = Sender.sentFrames (snd sender)
  /\ Async.inFlight m = []
  /\ Receiver.chunks (Async.vars m) = concat (map split_chunks reads)
  /\ Receiver.receivedBytes (Async.vars m) = size file
  /\ Receiver.pendingChunkInfo (Async.vars m) = None
  /\ Receiver.downloads (Async.vars m) = [content file]
  /\ Sender.statusLog (snd sender) = [StHashing; StWaitingKey; StSending; StSent]
  /\ Receiver.statusLog (Async.vars m)
     = [StWaitingMeta;
        StReceiving (Some (JStr (name file))) (Some (JNum (Z.of_nat (size file))));
        StReceived].
Proof.
  intros Hreads sender paced m.
  split; [apply AsyncFacts.arrivals_serial|].
  subst m paced. rewrite AsyncFacts.run_serial. cbn [Async.boot Async.inFlight Async.vars].
  split; [reflexivity|].
  change (Receiver.deliver (Sender.sentFrames (snd sender)) (Session.receiver0 receiverDrawn))
    with (Session.receiver_end random clock senderDrawn receiverDrawn reads file).
  destruct (SessionFacts.sender_run_spec jwk_roundtrip jwk_truthy random clock
              senderDrawn receiverDrawn reads file) as (w' & E & _ & Hst & _).
  rewrite (SessionFacts.receiver_end_spec jwk_roundtrip jwk_truthy ecdh_agree
             gcm_roundtrip random clock senderDrawn receiverDrawn reads file Hreads).
  set (r1 := Receiver.deliver
               [text (Sender.meta_message file
                        (Crypto.exportPubKeyJwk (public_of senderDrawn)))]
               (Session.receiver0 receiverDrawn)).
  destruct (SessionFacts.absorb_fields (concat (map split_chunks reads)) r1)
    as (Hc & _ & _ & Hd & Hs & Hb & _).
  assert (Hr1 : Receiver.chunks r1 = [] /\ Receiver.receivedBytes r1 = 0
                /\ Receiver.downloads r1 = []
                /\ Receiver.statusLog r1
                   = [StWaitingMeta;
                      StReceiving (Some (JStr (name file)))
                                  (Some (JNum (Z.of_nat (size file))))]).
  { subst r1. rewrite (SessionFacts.receiver_after_meta jwk_roundtrip). now repeat split. }
  destruct Hr1 as (Hc1 & Hb1 & Hd1 & Hs1).
  rewrite Hc1 in Hc. rewrite Hb1 in Hb. rewrite Hd1 in Hd. rewrite Hs1 in Hs.
  subst sender. rewrite E.
  cbn [snd Receiver.chunks Receiver.receivedBytes Receiver.pendingChunkInfo
       Receiver.downloads Receiver.statusLog Receiver.setStatus Receiver.setDownloadUrl].
  rewrite Hc, Hb, Hd, Hs, Hst, concat_concat_split, Hreads.
  repeat split.
  assert (Hp : forall ps r, Receiver.pendingChunkInfo r = None ->
                            Receiver.pendingChunkInfo (absorb ps r) = None).
  { induction ps as [|p ps IH]; intros r Hr; [exact Hr|].
    change (absorb (p :: ps) r) with (absorb ps (after_body p r)). apply IH.
    now destruct (ReceiverFacts.after_body_fields p r) as (_ & _ & Hn & _). }
  apply Hp. subst r1. now rewrite (SessionFacts.receiver_after_meta jwk_roundtrip).
Qed.

Lemma paced_session_books_agree_witness :
  concat [[x01; x02]; [x03]] = content Examples.letter
  /\ Receiver.downloads
       (Async.vars
          (Async.run (Async.serial Examples.letter_frames)
                     (Async.boot Examples.receiver0)))
     = [content Examples.letter].
Proof.
  split; [reflexivity|].
  exact (proj1 (proj2 (proj2 (proj2 (proj2 (proj2
    (@paced_session_books_agree Toy.platform ToyFacts.import_export
       ToyFacts.export_truthy ToyFacts.agree ToyFacts.open_seal
       Examples.random Examples.clock Examples.senderKey
       Examples.receiverKey [[x01; x02]; [x03]] Examples.letter
       eq_refl))))))).
Defined.
